(** * infotopo.predict: parametric predictions and their sensitivities

    A shallow embedding of [src/infotopo/predict.py] and the properties its
    specification states about it.

    Modelling conventions.
    - The module is Python 2 code ([from __future__ import division],
      [logging.warn], [map] used as a list): [map] returns a list and [/] is
      true division, also inside the code objects built by [compile].
    - numpy's float64 numbers are idealised as the real numbers [R]; rounding,
      [nan] and [inf] are not modelled.  One-dimensional arrays are [list R],
      two-dimensional arrays are lists of rows.
    - An exception is a value of [exn]; code that can raise returns a
      [result].  Statements are sequenced with the bind of that monad, in the
      order Python evaluates them.
    - [logging] calls do not influence any returned value; the messages a call
      emits are given by separate functions ([Predict_init_warnings],
      [add_warnings]). *)

From Stdlib Require Import Reals Lra Ascii.
From stdpp Require Import gmap strings list pretty.

#[local] Open Scope R_scope.

(** ** Python exceptions and the error monad *)

Inductive exn : Type :=
| AssertionError (msg : string)
| NameError (name : string)
| UnboundLocalError (name : string)
| ValueError (msg : string)
| TypeError (msg : string)
| SyntaxError (msg : string)
| ZeroDivisionError.

Inductive result (A : Type) : Type :=
| Ok (a : A)
| Err (e : exn).
Arguments Ok {A} a.
Arguments Err {A} e.

#[global] Instance result_ret : MRet result := fun A a => Ok a.
#[global] Instance result_bind : MBind result :=
  fun A B k m => match m with Ok a => k a | Err e => Err e end.
#[global] Instance result_fmap : FMap result :=
  fun A B g m => match m with Ok a => Ok (g a) | Err e => Err e end.

(** [assert cond, msg] *)
Definition assert_ (cond : bool) (msg : string) : result unit :=
  if cond then Ok tt else Err (AssertionError msg).

Definition is_assertion_error {A} (r : result A) : Prop :=
  exists msg, r = Err (AssertionError msg).

Definition raises {A} (r : result A) : Prop := exists e, r = Err e.

#[global] Instance R_eq_dec : EqDecision R := Req_dec_T.

(** [for i, x in enumerate(l)] *)
Definition enumerate {A} (l : list A) : list (nat * A) :=
  zip (seq 0 (length l)) l.

(** ** numpy arrays *)

Module np.

(** Elementwise binary operation on one-dimensional arrays with numpy's
    broadcasting: equal lengths combine pointwise, an array of length one
    is stretched, anything else is a [ValueError]. *)
Definition broadcast (op : R -> R -> R) (a b : list R) : result (list R) :=
  if decide (length a = length b) then Ok (zip_with op a b)
  else match a, b with
       | [x], _ => Ok (map (op x) b)
       | _, [y] => Ok (map (fun x => op x y) a)
       | _, _ => Err (ValueError "operands could not be broadcast together")
       end.

Definition add := broadcast Rplus.
Definition subtract := broadcast Rminus.
Definition multiply := broadcast Rmult.

(** [J * p] for a two-dimensional [J] and a one-dimensional [p]: the
    trailing axis of [J] is broadcast against [p], row by row.  An array
    with no rows has lost its column count in this representation: numpy
    broadcasts or raises according to that count, the model multiplies to
    the empty array.  The statements about [J * p] are therefore about
    arrays with at least one row. *)
Definition multiply_rows (J : list (list R)) (p : list R)
  : result (list (list R)) :=
  mapM (fun row => multiply row p) J.

Definition exp (a : list R) : list R := map Rtrigo_def.exp a.

(** [np.log(a)].  For an entry that is not strictly positive numpy returns
    [nan] or [-inf], which are no real numbers; the statements that depend
    on the value of a logarithm are about strictly positive entries. *)
Definition log (a : list R) : list R := map ln a.

Definition zeros (n : nat) : list R := replicate n 0.

(** [np.concatenate((a, b))] on one-dimensional arrays. *)
Definition concatenate (a b : list R) : list R := a ++ b.

(** [np.concatenate((a, b))] on two-dimensional arrays, along the first
    axis: the column counts have to agree.  An array with no rows has lost
    its column count (and its number of dimensions) in this representation:
    numpy compares the shapes, the model returns the rows of the other
    operand.  The statements about concatenated Jacobians are therefore
    about arrays with at least one row. *)
Definition concatenate_rows (a b : list (list R)) : result (list (list R)) :=
  match a, b with
  | ra :: _, rb :: _ =>
      if decide (length ra = length rb) then Ok (a ++ b)
      else Err (ValueError "all the input array dimensions must match exactly")
  | _, _ => Ok (a ++ b)
  end.

(** The columns of a list of equally long rows. *)
Definition columns (rows : list (list R)) : list (list R) :=
  match rows with
  | [] => []
  | r :: _ => map (fun k => map (fun row => nth k row 0) rows)
                  (seq 0 (length r))
  end.

(** [np.transpose(rows)] of a list of one-dimensional arrays.  The empty
    list gives the empty array; rows of different lengths do not form a
    two-dimensional array. *)
Definition transpose (rows : list (list R)) : result (list (list R)) :=
  match rows with
  | [] => Ok []
  | r :: _ =>
      if forallb (fun row => bool_decide (length row = length r)) rows
      then Ok (columns rows)
      else Err (ValueError "setting an array element with a sequence")
  end.

(** [np.max((a, b), axis=0)] for two sequences of the same length. *)
Definition max_axis0 (a b : list R) : list R := zip_with Rmax a b.

End np.

(** ** Labeled containers ([infotopo.util.Series], [infotopo.util.Matrix]) *)

Record Series : Type := { values : list R; index : list string }.

(** Modelled from the spec: [infotopo.util.Series] is imported by the module
    but is not part of the source tree.  The spec describes it as the labeled
    vector of a series library: the values together with their ordered
    labels.  As in such a library, building one from values and labels of
    different lengths fails. *)
Definition Series_init (data : list R) (idx : list string) : result Series :=
  if decide (length data = length idx)
  then Ok {| values := data; index := idx |}
  else Err (ValueError "Length of values does not match length of index").

(** [s * c] for a scalar [c]: the labels are kept. *)
Definition Series_mul (s : Series) (c : R) : Series :=
  {| values := map (fun y => y * c) (values s); index := index s |}.

(** [a == b]: elementwise, defined on identically labeled series. *)
Definition Series_eq (a b : Series) : result (list bool) :=
  if decide (index a = index b /\ length (values a) = length (values b))
  then Ok (zip_with (fun x y => bool_decide (x = y)) (values a) (values b))
  else Err (ValueError "Can only compare identically-labeled Series objects").

(** Python's [all] on a list of booleans. *)
Definition all (bs : list bool) : bool := forallb (fun b => b) bs.

Record Matrix : Type :=
  { mvalues : list (list R); mindex : list string; mcolumns : list string }.

(** Modelled from the spec: [infotopo.util.Matrix], the labeled matrix, is
    not part of the source tree either.  Rows are labeled by [idx], columns
    by [cols], and the shapes have to agree. *)
Definition Matrix_init (data : list (list R)) (idx cols : list string)
  : result Matrix :=
  if decide (length data = length idx /\
             Forall (fun row => length row = length cols) data)
  then Ok {| mvalues := data; mindex := idx; mcolumns := cols |}
  else Err (ValueError "Shape of passed values does not match the labels").

(** ** Finite-difference Jacobian *)

Definition RDELTAP : R := 1e-3.

Definition raw_f : Type := list R -> result (list R).
Definition raw_Df : Type := list R -> result (list (list R)).

(** [get_Df_fd(f, rdeltap)]: the closure [_Df] it returns.  The loop body
    builds one column of the Jacobian, i.e. one row of [jacT]. *)
Definition get_Df_fd (f : raw_f) (rdeltap : option R) : raw_Df :=
  let rdeltap := match rdeltap with None => RDELTAP | Some r => r end in
  fun p =>
    jacT ← mapM (fun '(i, p_i) =>
                   let deltap_i := Rmax (p_i * rdeltap) rdeltap in
                   let deltap := <[i := deltap_i]> (np.zeros (length p)) in
                   p_plus ← np.add p deltap;
                   p_minus ← np.subtract p deltap;
                   y_plus ← f p_plus;
                   y_minus ← f p_minus;
                   d ← np.subtract y_plus y_minus;
                   mret (map (fun y => y / 2 / deltap_i) d))
                (enumerate p);
    np.transpose jacT.

(** ** The Predict class *)

Record Predict : Type := {
  _f : raw_f;
  _Df : raw_Df;
  pids : list string;
  yids : list string;
  pdim : nat;
  ydim : nat;
  p0 : Series;
  _p0 : list R;
  rank : option nat;
  ptype : string;
  prior : option (list R -> result R)
}.

(** The closure [f] built by [__init__]: [None] stands for the stored
    default parameter vector, and the raw output is labeled with [yids]. *)
Definition f (self : Predict) (p : option (list R)) : result Series :=
  let p := match p with None => values (p0 self) | Some p => p end in
  y ← _f self p;
  Series_init y (yids self).

(** The closure [Df] built by [__init__]. *)
Definition Df (self : Predict) (p : option (list R)) : result Matrix :=
  let p := match p with None => values (p0 self) | Some p => p end in
  jac ← _Df self p;
  Matrix_init jac (yids self) (pids self).

Definition __call__ (self : Predict) (p : option (list R)) : result Series :=
  f self p.

(** [['p_%d' % i for i in range(1, n+1)]] and the like. *)
Definition default_ids (prefix : string) (n : nat) : list string :=
  map (fun i => prefix +:+ pretty i) (seq 1 n).

(** [Predict.__init__].  The default of [ptype] is the empty string; the
    keyword arguments beyond the named ones ([**kwargs]) only set further
    attributes and are left out.  When [pred] is given its raw functions,
    defaults and identifiers replace the arguments. *)
Definition Predict_init (f_ : raw_f) (Df_ : option raw_Df)
    (pids_ yids_ : option (list string)) (pdim_ ydim_ : option nat)
    (p0_ : option (list R)) (rank_ : option nat) (ptype_ : string)
    (prior_ : option (list R -> result R)) (pred : option Predict)
  : result Predict :=
  let '(f_, Df_, p0_, pids_, yids_, rank_, ptype_) :=
    match pred with
    | Some pred => (_f pred, Some (_Df pred), Some (_p0 pred),
                    Some (pids pred), Some (yids pred), rank pred, ptype pred)
    | None => (f_, Df_, p0_, pids_, yids_, rank_, ptype_)
    end in
  assert_ (negb (bool_decide (pids_ = None) && bool_decide (pdim_ = None))) "";;
  assert_ (negb (bool_decide (yids_ = None) && bool_decide (ydim_ = None))) "";;
  let pids_ := match pids_ with
               | None => default_ids "p_" (default 0%nat pdim_)
               | Some ids => ids
               end in
  let yids_ := match yids_ with
               | None => default_ids "y_" (default 0%nat ydim_)
               | Some ids => ids
               end in
  let pdim_ := match pdim_ with None => length pids_ | Some d => d end in
  let ydim_ := match ydim_ with None => length yids_ | Some d => d end in
  let p0_ := match p0_ with None => replicate pdim_ 1 | Some p => p end in
  let Df_ := match Df_ with
             | None => get_Df_fd f_ (Some RDELTAP)
             | Some Df => Df
             end in
  p0_series ← Series_init p0_ pids_;
  mret {| _f := f_; _Df := Df_; pids := pids_; yids := yids_;
          pdim := pdim_; ydim := ydim_; p0 := p0_series; _p0 := p0_;
          rank := rank_; ptype := ptype_; prior := prior_ |}.

(** The messages [__init__] logs. *)
Definition Predict_init_warnings (Df : option raw_Df) (pred : option Predict)
  : list string :=
  match pred, Df with
  | None, None => ["Df not given; calculated using finite difference."]
  | _, _ => []
  end.

(** The state [__init__] leaves: the default vector is labeled by the
    parameter identifiers. *)
Definition Predict_wf (self : Predict) : Prop :=
  index (p0 self) = pids self /\
  values (p0 self) = _p0 self /\
  length (_p0 self) = length (pids self).

(** [Predict.__add__]: [(f+g)(p) = (f(p), g(p))]. *)
Definition __add__ (self other : Predict) : result Predict :=
  assert_ (bool_decide (pids self = pids other)) "pids not the same";;
  same ← Series_eq (p0 self) (p0 other);
  assert_ (all same) "p0 not the same";;
  let _f : raw_f := fun p =>
    ya ← _f self p; yb ← _f other p; mret (np.concatenate ya yb) in
  let _Df : raw_Df := fun p =>
    ja ← _Df self p; jb ← _Df other p; np.concatenate_rows ja jb in
  Predict_init _f (Some _Df) (Some (pids self))
    (Some (yids self ++ yids other)) None None (Some (values (p0 self))) None
    (ptype self) None None.

(** The two assertions that open [__add__]. *)
Definition add_asserts (self other : Predict) : result unit :=
  assert_ (bool_decide (pids self = pids other)) "pids not the same";;
  same ← Series_eq (p0 self) (p0 other);
  assert_ (all same) "p0 not the same".

(** The messages a call of [__add__] logs.  The warning is reached only
    after both assertions have passed; the constructor is called with a
    Jacobian and logs nothing. *)
Definition add_warnings (self other : Predict) : list string :=
  match add_asserts self other with
  | Ok _ =>
      if decide (0 < size ((list_to_set (yids self) : gset string) ∩
                            list_to_set (yids other)))%nat
      then ["The two preds have overlapping yids."] else []
  | Err _ => []
  end.

(** [Predict.get_in_logp]: the same prediction as a function of the
    logarithms of the parameters. *)
Definition get_in_logp (self : Predict) : result Predict :=
  assert_ (bool_decide (ptype self = "")) "not in bare parametrization";;
  let _f_logp : raw_f := fun logp =>
    let p := np.exp logp in
    _f self p in
  let _Df_logp : raw_Df := fun logp =>
    let p := np.exp logp in
    jac ← _Df self p;
    np.multiply_rows jac p in
  let logpids := map (fun pid => "log_" +:+ pid) (pids self) in
  logp0 ← Series_init (np.log (_p0 self)) logpids;
  Predict_init _f_logp (Some _Df_logp) (Some logpids) (Some (yids self))
    None None (Some (values logp0)) None "logp" None None.

(** [Predict.get_sigma].  The three [if] statements are run one after the
    other; the local variable [sigma] is unbound until one of them assigns
    it, and [return sigma] reads it. *)
Definition get_sigma (self : Predict) (p : option (list R))
    (errormodel : string) (constant_sigma cv : R) : result Series :=
  y ← f self p;
  let sigma : option Series := None in
  sigma ← (if bool_decide (errormodel = "constant")
           then Some <$> Series_init
                  (replicate (length (values y)) constant_sigma) (yids self)
           else mret sigma);
  sigma ← (if bool_decide (errormodel = "cv")
           then mret (Some (Series_mul y cv))
           else mret sigma);
  sigma ← (if bool_decide (errormodel = "mixed")
           then Some <$> Series_init
                  (np.max_axis0 (values (Series_mul y cv))
                     (replicate (length (values y)) constant_sigma))
                  (yids self)
           else mret sigma);
  match sigma with
  | Some sigma => Ok sigma
  | None => Err (UnboundLocalError "sigma")
  end.

(** [dict(zip(keys, vals))]: a later pair overrides an earlier one with the
    same key. *)
Definition dict {V} (items : list (string * V)) : gmap string V :=
  foldl (fun m kv => <[kv.1 := kv.2]> m) ∅ items.

(** ** Expression strings

    The arithmetic fragment of Python expressions that the module builds and
    compiles: integer literals, names, the four operations, unary signs,
    parentheses and calls with one argument, inside list displays.
    Anything else is outside the fragment and is reported as a syntax
    error. *)

Inductive binop : Type := Add | Sub | Mul | Div.

Inductive expr : Type :=
| Num (n : Z)
| Name (x : string)
| Neg (e : expr)
| BinOp (op : binop) (a b : expr)
| Call (fn : string) (arg : expr).

Inductive token : Type :=
| TNum (n : Z)
| TName (x : string)
| TSym (c : ascii).

Definition is_digit (c : ascii) : bool :=
  let n := nat_of_ascii c in (48 <=? n)%nat && (n <=? 57)%nat.

Definition is_letter (c : ascii) : bool :=
  let n := nat_of_ascii c in
  ((65 <=? n)%nat && (n <=? 90)%nat) || ((97 <=? n)%nat && (n <=? 122)%nat)
  || (n =? 95)%nat.

Definition is_space (c : ascii) : bool := (nat_of_ascii c =? 32)%nat.

Definition is_symbol (c : ascii) : bool :=
  bool_decide (c ∈ ["+"; "-"; "*"; "/"; "("; ")"; "["; "]"; ","]%char).

Definition digit_value (c : ascii) : Z := Z.of_nat (nat_of_ascii c) - 48.

(** The token being read, if any. *)
Definition flush (cur : option token) : list token :=
  match cur with Some t => [t] | None => [] end.

Fixpoint tokenize (cur : option token) (s : string) : result (list token) :=
  match s with
  | EmptyString => Ok (flush cur)
  | String c s =>
      if is_digit c then
        match cur with
        | Some (TNum n) => tokenize (Some (TNum (10 * n + digit_value c))) s
        | Some (TName x) =>
            tokenize (Some (TName (x +:+ String c EmptyString))) s
        | _ => tokenize (Some (TNum (digit_value c))) s
        end
      else if is_letter c then
        match cur with
        | Some (TName x) =>
            tokenize (Some (TName (x +:+ String c EmptyString))) s
        | Some (TNum _) => Err (SyntaxError "invalid syntax")
        | _ => tokenize (Some (TName (String c EmptyString))) s
        end
      else if is_space c then (flush cur ++.) <$> tokenize None s
      else if is_symbol c then
        (fun ts => flush cur ++ TSym c :: ts) <$> tokenize None s
      else Err (SyntaxError "invalid syntax")
  end.


Definition syntax_error {A} : result A := Err (SyntaxError "invalid syntax").

(** Recursive descent over the token list.  [fuel] bounds the depth of the
    descent; [parse_string] supplies more than any token list can use. *)
Fixpoint parse_expr (fuel : nat) (ts : list token) {struct fuel}
  : result (expr * list token) :=
  match fuel with
  | O => syntax_error
  | S fuel => '(lhs, ts) ← parse_term fuel ts; parse_expr_rest fuel lhs ts
  end
with parse_expr_rest (fuel : nat) (lhs : expr) (ts : list token) {struct fuel}
  : result (expr * list token) :=
  match fuel with
  | O => syntax_error
  | S fuel =>
      match ts with
      | TSym "+" :: ts =>
          '(rhs, ts) ← parse_term fuel ts;
          parse_expr_rest fuel (BinOp Add lhs rhs) ts
      | TSym "-" :: ts =>
          '(rhs, ts) ← parse_term fuel ts;
          parse_expr_rest fuel (BinOp Sub lhs rhs) ts
      | _ => Ok (lhs, ts)
      end
  end
with parse_term (fuel : nat) (ts : list token) {struct fuel} : result (expr * list token) :=
  match fuel with
  | O => syntax_error
  | S fuel => '(lhs, ts) ← parse_factor fuel ts; parse_term_rest fuel lhs ts
  end
with parse_term_rest (fuel : nat) (lhs : expr) (ts : list token) {struct fuel}
  : result (expr * list token) :=
  match fuel with
  | O => syntax_error
  | S fuel =>
      match ts with
      | TSym "*" :: ts =>
          '(rhs, ts) ← parse_factor fuel ts;
          parse_term_rest fuel (BinOp Mul lhs rhs) ts
      | TSym "/" :: ts =>
          '(rhs, ts) ← parse_factor fuel ts;
          parse_term_rest fuel (BinOp Div lhs rhs) ts
      | _ => Ok (lhs, ts)
      end
  end
with parse_factor (fuel : nat) (ts : list token) {struct fuel} : result (expr * list token) :=
  match fuel with
  | O => syntax_error
  | S fuel =>
      match ts with
      | TSym "-" :: ts => '(e, ts) ← parse_factor fuel ts; mret (Neg e, ts)
      | TSym "+" :: ts => parse_factor fuel ts
      | TNum n :: ts => Ok (Num n, ts)
      | TName x :: TSym "(" :: ts =>
          '(arg, ts) ← parse_expr fuel ts;
          match ts with
          | TSym ")" :: ts => Ok (Call x arg, ts)
          | _ => syntax_error
          end
      | TName x :: ts => Ok (Name x, ts)
      | TSym "(" :: ts =>
          '(e, ts) ← parse_expr fuel ts;
          match ts with
          | TSym ")" :: ts => Ok (e, ts)
          | _ => syntax_error
          end
      | _ => syntax_error
      end
  end.

(** The items of a list display, after its opening bracket. *)
Fixpoint parse_items {A} (item : list token -> result (A * list token))
    (fuel : nat) (ts : list token) : result (list A * list token) :=
  match fuel with
  | O => syntax_error
  | S fuel =>
      match ts with
      | TSym "]" :: ts => Ok ([], ts)
      | _ =>
          '(x, ts) ← item ts;
          match ts with
          | TSym "," :: ts =>
              '(xs, ts) ← parse_items item fuel ts; mret (x :: xs, ts)
          | TSym "]" :: ts => Ok ([x], ts)
          | _ => syntax_error
          end
      end
  end.

Definition parse_list {A} (item : list token -> result (A * list token))
    (fuel : nat) (ts : list token) : result (list A * list token) :=
  match ts with
  | TSym "[" :: ts => parse_items item fuel ts
  | _ => syntax_error
  end.

(** The whole input has to be used. *)
Definition complete {A} (r : result (A * list token)) : result A :=
  '(x, ts) ← r;
  match ts with [] => Ok x | _ => syntax_error end.

Definition fuel_for (ts : list token) : nat := 8 * S (length ts).

Definition parse_string (s : string) : result expr :=
  ts ← tokenize None s;
  complete (parse_expr (fuel_for ts) ts).

(** [compile(s, '', 'eval')] for a list display of expressions and for a
    list display of such lists. *)
Definition compile_list (s : string) : result (list expr) :=
  ts ← tokenize None s;
  complete (parse_list (parse_expr (fuel_for ts)) (fuel_for ts) ts).

Definition compile_list2 (s : string) : result (list (list expr)) :=
  ts ← tokenize None s;
  complete (parse_list (parse_list (parse_expr (fuel_for ts)) (fuel_for ts))
              (fuel_for ts) ts).

Definition binop_symbol (op : binop) : string :=
  match op with Add => "+" | Sub => "-" | Mul => "*" | Div => "/" end.

(** An expression as a string, fully parenthesized. *)
Fixpoint print_expr (e : expr) : string :=
  match e with
  | Num n => if decide (n < 0)%Z then "(" +:+ pretty n +:+ ")" else pretty n
  | Name x => x
  | Neg e => "(-" +:+ print_expr e +:+ ")"
  | BinOp op a b =>
      "(" +:+ print_expr a +:+ binop_symbol op +:+ print_expr b +:+ ")"
  | Call fn arg => fn +:+ "(" +:+ print_expr arg +:+ ")"
  end.

(** [str(l)] for a list of strings, followed by the replacement that drops
    every single quote.  [str] shows each string between single quotes and
    separates the items by a comma and a space. *)
Definition repr_string (s : string) : string := "'" +:+ s +:+ "'".

Definition str_list (items : list string) : string :=
  "[" +:+ String.concat ", " items +:+ "]".

Fixpoint remove_quotes (s : string) : string :=
  match s with
  | EmptyString => EmptyString
  | String c s =>
      if bool_decide (c = "'"%char) then remove_quotes s
      else String c (remove_quotes s)
  end.

(** [str(list(u))] for a list of integers. *)
Definition str_int_list (u : list Z) : string := str_list (map pretty u).

(** ** Evaluation of compiled expressions *)

Inductive pyval : Type :=
| VNum (x : R)
| VFun (g : R -> R).

Definition mathsubs : gmap string pyval :=
  dict [("sqrt", VFun sqrt); ("exp", VFun exp); ("log", VFun ln);
        ("Sqrt", VFun sqrt); ("Exp", VFun exp); ("Log", VFun ln);
        ("arctan", VFun atan); ("atan", VFun atan);
        ("sin", VFun sin); ("cos", VFun cos);
        ("pi", VNum PI)].

(** A name is looked up in the local namespace first, then in the global
    one. *)
Definition lookup_name (globals : gmap string R) (locals : gmap string pyval)
    (x : string) : result pyval :=
  match locals !! x with
  | Some v => Ok v
  | None => match globals !! x with
            | Some v => Ok (VNum v)
            | None => Err (NameError x)
            end
  end.

Definition as_number (v : pyval) : result R :=
  match v with
  | VNum x => Ok x
  | VFun _ => Err (TypeError "unsupported operand type")
  end.

Definition eval_binop (op : binop) (x y : R) : result R :=
  match op with
  | Add => Ok (x + y)
  | Sub => Ok (x - y)
  | Mul => Ok (x * y)
  | Div => if decide (y = 0) then Err ZeroDivisionError else Ok (x / y)
  end.

Fixpoint eval_expr (globals : gmap string R) (locals : gmap string pyval)
    (e : expr) : result R :=
  match e with
  | Num n => Ok (IZR n)
  | Name x => lookup_name globals locals x ≫= as_number
  | Neg e => x ← eval_expr globals locals e; mret (- x)
  | BinOp op a b =>
      x ← eval_expr globals locals a;
      y ← eval_expr globals locals b;
      eval_binop op x y
  | Call fn arg =>
      g ← lookup_name globals locals fn;
      x ← eval_expr globals locals arg;
      match g with
      | VFun g => Ok (g x)
      | VNum _ => Err (TypeError "object is not callable")
      end
  end.

(** ** Symbolic helpers ([infotopo.util]) *)

Record UtilModule : Type := {
  sub_expr : string -> gmap string Z -> result string;
  diff_expr : string -> string -> result string;
  simplify_expr : string -> result string
}.

Fixpoint subst (m : gmap string Z) (e : expr) : expr :=
  match e with
  | Num n => Num n
  | Name x => match m !! x with Some v => Num v | None => Name x end
  | Neg e => Neg (subst m e)
  | BinOp op a b => BinOp op (subst m a) (subst m b)
  | Call fn arg => Call fn (subst m arg)
  end.

(** The derivative of an expression with respect to a name; [None] for a
    function that is not one of [mathsubs]. *)
Fixpoint diff (x : string) (e : expr) : option expr :=
  match e with
  | Num _ => Some (Num 0)
  | Name y => Some (Num (if decide (x = y) then 1 else 0))
  | Neg e => Neg <$> diff x e
  | BinOp Add a b => a' ← diff x a; b' ← diff x b; Some (BinOp Add a' b')
  | BinOp Sub a b => a' ← diff x a; b' ← diff x b; Some (BinOp Sub a' b')
  | BinOp Mul a b =>
      a' ← diff x a; b' ← diff x b;
      Some (BinOp Add (BinOp Mul a' b) (BinOp Mul a b'))
  | BinOp Div a b =>
      a' ← diff x a; b' ← diff x b;
      Some (BinOp Div (BinOp Sub (BinOp Mul a' b) (BinOp Mul a b'))
                      (BinOp Mul b b))
  | Call fn u =>
      u' ← diff x u;
      if decide (fn ∈ ["exp"; "Exp"]) then Some (BinOp Mul (Call fn u) u')
      else if decide (fn ∈ ["log"; "Log"]) then Some (BinOp Div u' u)
      else if decide (fn ∈ ["sqrt"; "Sqrt"])
           then Some (BinOp Div u' (BinOp Mul (Num 2) (Call fn u)))
      else if decide (fn ∈ ["arctan"; "atan"])
           then Some (BinOp Div u' (BinOp Add (Num 1) (BinOp Mul u u)))
      else if decide (fn = "sin") then Some (BinOp Mul (Call "cos" u) u')
      else if decide (fn = "cos")
           then Some (Neg (BinOp Mul (Call "sin" u) u'))
      else None
  end.

(** Modelled from the spec: [infotopo.util] is not part of the source tree.
    The spec names its three helpers as the substitution, differentiation
    and simplification of symbolic expressions, delegated to a symbolic
    engine; here they work on the parsed expression and return it as a
    string again.  Simplification keeps the expression as it is. *)
Definition util_spec : UtilModule :=
  {| sub_expr := fun s m => e ← parse_string s; mret (print_expr (subst m e));
     diff_expr := fun s x =>
       e ← parse_string s;
       match diff x e with
       | Some e' => Ok (print_expr e')
       | None => Err (ValueError "cannot differentiate")
       end;
     simplify_expr := fun s => e ← parse_string s; mret (print_expr e) |}.

(** ** The module namespace *)

Inductive pyobject : Type :=
| PyUtil (m : UtilModule)
| PyOther.

(** The global names of [predict.py] once it is imported: those bound by
    its import statements and by its top-level assignments and definitions.
    [from infotopo.util import Series, Matrix] binds [Series] and [Matrix]
    only. *)
Definition predict_globals : gmap string pyobject :=
  dict ((fun name => (name, PyOther)) <$>
        ["absolute_import"; "division"; "print_function"; "logging"; "np";
         "pd"; "plt"; "Series"; "Matrix"; "RDELTAP"; "Predict"; "get_Df_fd";
         "mathsubs"; "str2predict"; "list2predict"; "list2predict2"]).

(** Evaluating the global name [util] and taking an attribute of it. *)
Definition global_util (globals : gmap string pyobject) : result UtilModule :=
  match globals !! "util" with
  | Some (PyUtil m) => Ok m
  | Some PyOther => Err (TypeError "object has no such attribute")
  | None => Err (NameError "util")
  end.

(** ** Predictions from expression strings *)

Definition str2predict (globals : gmap string pyobject)
    (funcstr : string) (pids uids : list string) (us : list (list Z))
    (c : option (gmap string Z)) (p0 : option (list R))
    (yids : option (list string)) : result Predict :=
  funcstr ← match c with
            | Some c => util ← global_util globals; sub_expr util funcstr c
            | None => Ok funcstr
            end;
  ystrs ← mapM (fun u => util ← global_util globals;
                         sub_expr util funcstr (dict (zip uids u))) us;
  let ystr := remove_quotes (str_list (repr_string <$> ystrs)) in
  ycode ← compile_list ystr;
  let f : raw_f := fun p =>
    mapM (eval_expr (dict (zip pids p)) mathsubs) ycode in
  jaclist ← mapM (fun u =>
                    util ← global_util globals;
                    funcstr_u ← sub_expr util funcstr (dict (zip uids u));
                    mapM (fun pid =>
                            util ← global_util globals;
                            util' ← global_util globals;
                            d ← diff_expr util' funcstr_u pid;
                            simplify_expr util d) pids) us;
  let jacstr :=
    remove_quotes
      (str_list ((fun row => str_list (repr_string <$> row)) <$> jaclist)) in
  jaccode ← compile_list2 jacstr;
  let Df : raw_Df := fun p =>
    mapM (mapM (eval_expr (dict (zip pids p)) mathsubs)) jaccode in
  let p0 := match p0 with
            | None => replicate (length pids) 1
            | Some p0 => p0
            end in
  let yids := match yids with
              | None => (fun u => "u=" +:+ str_int_list u) <$> us
              | Some yids => yids
              end in
  Predict_init f (Some Df) (Some pids) (Some yids) None None (Some p0) None
    "" None None.


(** The namespace the module would have with [util] imported, bound to the
    helpers as the spec describes them. *)
Definition example_globals : gmap string pyobject :=
  <["util" := PyUtil util_spec]> predict_globals.

(** ** Notions the specification uses *)

(** A matrix with each column [j] multiplied by the [j]-th component of a
    vector. *)
Definition scale_columns (J : list (list R)) (v : list R) : list (list R) :=
  map (fun row => zip_with Rmult row v) J.

(** The product [M p] of a matrix and a vector. *)
Definition dot (row p : list R) : R := foldr Rplus 0 (zip_with Rmult row p).

Definition linear_map (M : list (list R)) : raw_f :=
  fun p =>
    if decide (Forall (fun row => length row = length p) M)
    then Ok (map (fun row => dot row p) M)
    else Err (ValueError "shapes not aligned").

(** Two series one after the other. *)
Definition Series_append (a b : Series) : Series :=
  {| values := values a ++ values b; index := index a ++ index b |}.

(** ** Sample predictions *)

(** [Predict(f=lambda p: p, pids=['a', 'b'], yids=['ya', 'yb'], p0=[1, 2])]
    with the Jacobian of the identity. *)
Definition pred_id : Predict :=
  {| _f := fun p => Ok p;
     _Df := fun p => Ok [[1; 0]; [0; 1]];
     pids := ["a"; "b"]; yids := ["ya"; "yb"]; pdim := 2; ydim := 2;
     p0 := {| values := [1; 2]; index := ["a"; "b"] |}; _p0 := [1; 2];
     rank := None; ptype := ""; prior := None |}.

(** A second prediction on the same parameters: the sum of the two. *)
Definition pred_sum : Predict :=
  {| _f := fun p => Ok [foldr Rplus 0 p];
     _Df := fun p => Ok [[1; 1]];
     pids := ["a"; "b"]; yids := ["s"]; pdim := 2; ydim := 1;
     p0 := {| values := [1; 2]; index := ["a"; "b"] |}; _p0 := [1; 2];
     rank := None; ptype := ""; prior := None |}.

(** The same as [pred_sum], with another default vector. *)
Definition pred_sum' : Predict :=
  {| _f := fun p => Ok [foldr Rplus 0 p];
     _Df := fun p => Ok [[1; 1]];
     pids := ["a"; "b"]; yids := ["s"]; pdim := 2; ydim := 1;
     p0 := {| values := [1; 3]; index := ["a"; "b"] |}; _p0 := [1; 3];
     rank := None; ptype := ""; prior := None |}.

(** ** The data table *)

(** [pd.DataFrame(data, index=idx, columns=cols)]: the labeled table of the
    dataframe library, of which [Matrix] is the repository's variant. *)
Definition DataFrame_init (data : list (list R)) (idx cols : list string)
  : result Matrix :=
  Matrix_init data idx cols.

(** [Predict.get_dat].  The keyword arguments are those of [get_sigma]. *)
Definition get_dat (self : Predict) (p : option (list R))
    (errormodel : string) (constant_sigma cv : R) : result Matrix :=
  y ← f self p;
  sigma ← get_sigma self p errormodel constant_sigma cv;
  data ← np.transpose [values y; values sigma];
  DataFrame_init data (yids self) ["Y"; "sigma"].

(** ** Affine functions *)

(** An affine function [f(p) = M p + b]. *)
Definition affine_map (M : list (list R)) (b : list R) : raw_f :=
  fun p => y ← linear_map M p; np.add y b.

(** ** Predictions from lists of expression strings *)

(** Reading a local variable of a function: it is unbound until a
    statement assigns it. *)
Definition read_local {A} (name : string) (v : option A) : result A :=
  match v with
  | Some a => Ok a
  | None => Err (UnboundLocalError name)
  end.

(** Evaluating a global name. *)
Definition global_name (globals : gmap string pyobject) (name : string)
  : result pyobject :=
  match globals !! name with
  | Some o => Ok o
  | None => Err (NameError name)
  end.

(** [for x in xs] over an argument whose default is [None]. *)
Definition iterate {A} (xs : option (list A)) : result (list A) :=
  match xs with
  | Some l => Ok l
  | None => Err (TypeError "object is not iterable")
  end.

Section list_predictions.

(** Helpers of [infotopo.util] that are not part of the source tree and
    that the spec does not describe: [flatten] on a list of lists,
    [flatten] with [depth=1] on a list of lists of rows, [get_product], and
    what [diff_expr] does with a global object instead of a string. *)
Variable flatten : list (list string) -> list string.
Variable flatten_rows : list (list (list string)) -> list (list string).
Variable get_product : list string -> list string -> list string.
Variable diff_object : UtilModule -> pyobject -> string -> result string.

(** [list2predict].  [funstrs] is a local variable that only the branch on
    [uids] assigns, from a comprehension over [funstrs] itself; inside that
    comprehension [funcstr] is the loop variable the first comprehension
    has left behind (Python 2), if it has run at all. *)
Definition list2predict (globals : gmap string pyobject)
    (funcstrs pids : list string) (uids : option (list string))
    (us : option (list (list Z))) (yids : option (list string))
    (c : option (gmap string Z)) (p0 : option (list R)) : result Predict :=
  let funcstr : option string := None in
  let funstrs : option (list string) := None in
  '(funcstrs, funcstr) ←
    match c with
    | Some c =>
        substituted ← mapM (fun funcstr => util ← global_util globals;
                                            sub_expr util funcstr c) funcstrs;
        mret (substituted, last funcstrs)
    | None => mret (funcstrs, funcstr)
    end;
  funstrs ←
    match uids with
    | Some uids =>
        outer ← read_local "funstrs" funstrs;
        nested ← mapM (fun funstr : string =>
                         us ← iterate us;
                         mapM (fun u =>
                                 util ← global_util globals;
                                 funcstr ← read_local "funcstr" funcstr;
                                 sub_expr util funcstr (dict (zip uids u)))
                              us) outer;
        util ← global_util globals;
        mret (Some (flatten nested))
    | None => mret funstrs
    end;
  funstrs ← read_local "funstrs" funstrs;
  let ystr := remove_quotes (str_list (repr_string <$> funstrs)) in
  ycode ← compile_list ystr;
  let f : raw_f := fun p =>
    mapM (eval_expr (dict (zip pids p)) mathsubs) ycode in
  jaclist ← mapM (fun funstr =>
                    mapM (fun pid =>
                            util ← global_util globals;
                            util' ← global_util globals;
                            d ← diff_expr util' funstr pid;
                            simplify_expr util d) pids) funstrs;
  let jacstr :=
    remove_quotes
      (str_list ((fun row => str_list (repr_string <$> row)) <$> jaclist)) in
  jaccode ← compile_list2 jacstr;
  let Df : raw_Df := fun p =>
    mapM (mapM (eval_expr (dict (zip pids p)) mathsubs)) jaccode in
  let p0 := match p0 with
            | None => replicate (length pids) 1
            | Some p0 => p0
            end in
  let yids := match yids with
              | None => default_ids "y" (length funstrs)
              | Some yids => yids
              end in
  Predict_init f (Some Df) (Some pids) (Some yids) None None (Some p0) None
    "" None None.

(** [list2predict2].  The Jacobian rows differentiate the global name [s],
    once per expression and parameter. *)
Definition list2predict2 (globals : gmap string pyobject)
    (funcstrs pids : list string) (uids : option (list string))
    (us : option (list (list Z))) (yids : option (list string))
    (c : option (gmap string Z)) (p0 : option (list R)) : result Predict :=
  funcstrs ←
    match c with
    | Some c => mapM (fun funcstr => util ← global_util globals;
                                     sub_expr util funcstr c) funcstrs
    | None => mret funcstrs
    end;
  let ystr := remove_quotes (str_list (repr_string <$> funcstrs)) in
  ycode ← compile_list ystr;
  let f : raw_f := fun p =>
    mapM (eval_expr (dict (zip pids p)) mathsubs) ycode in
  jaclist ← mapM (fun funcstr : string =>
                    mapM (fun pid =>
                            util ← global_util globals;
                            util' ← global_util globals;
                            s ← global_name globals "s";
                            d ← diff_object util' s pid;
                            simplify_expr util d) pids) funcstrs;
  jaclist ←
    match us with
    | Some us =>
        nested ← mapM (fun u =>
                   mapM (fun jacrow =>
                     mapM (fun jacentry =>
                             util ← global_util globals;
                             uids ← iterate uids;
                             sub_expr util jacentry (dict (zip uids u)))
                          jacrow) jaclist) us;
        util ← global_util globals;
        mret (flatten_rows nested)
    | None => mret jaclist
    end;
  let jacstr :=
    remove_quotes
      (str_list ((fun row => str_list (repr_string <$> row)) <$> jaclist)) in
  jaccode ← compile_list2 jacstr;
  let Df : raw_Df := fun p =>
    mapM (mapM (eval_expr (dict (zip pids p)) mathsubs)) jaccode in
  let p0 := match p0 with
            | None => replicate (length pids) 1
            | Some p0 => p0
            end in
  yids ←
    match yids with
    | Some yids => mret yids
    | None =>
        let yids := default_ids "y" (length funcstrs) in
        match us with
        | Some us =>
            let uids := default_ids "u" (length us) in
            util ← global_util globals;
            mret (get_product yids uids)
        | None => mret yids
        end
    end;
  Predict_init f (Some Df) (Some pids) (Some yids) None None (Some p0) None
    "" None None.

End list_predictions.

(** ** Sample helpers *)

(** Helpers standing for the missing [flatten] and [get_product] where a
    statement needs some. *)
Definition sample_flatten_rows (rows : list (list (list string)))
  : list (list string) := concat rows.

Definition sample_get_product (a b : list string) : list string :=
  a ≫= fun x => (fun y => x +:+ y) <$> b.

Definition sample_diff_object (util : UtilModule) (o : pyobject)
    (pid : string) : result string :=
  Err (TypeError "not an expression").

(* ===================================================================== *)
(** * Properties *)

(** ** The error monad and the containers *)

Lemma bind_Ok {A B} (a : A) (k : A -> result B) : (Ok a ≫= k) = k a.
Proof. reflexivity. Qed.

Lemma bind_Ok_inv {A B} (m : result A) (k : A -> result B) (b : B) :
  (m ≫= k) = Ok b -> exists a, m = Ok a /\ k a = Ok b.
Proof. destruct m as [a|e]; simpl; [eauto | discriminate]. Qed.

Lemma Series_init_Ok (data : list R) (idx : list string) :
  length data = length idx ->
  Series_init data idx = Ok {| values := data; index := idx |}.
Proof. intros H. unfold Series_init. by rewrite decide_True. Qed.

Lemma Series_init_inv (data : list R) (idx : list string) (s : Series) :
  Series_init data idx = Ok s ->
  s = {| values := data; index := idx |} /\ length data = length idx.
Proof.
  unfold Series_init. case_decide; [|discriminate].
  intros [= <-]. done.
Qed.

Lemma all_eq_iff (a b : list R) :
  length a = length b ->
  all (zip_with (fun x y => bool_decide (x = y)) a b) = true <-> a = b.
Proof.
  revert b. induction a as [|x a IH]; intros [|y b] Hlen; simpl in *;
    try discriminate; [done|].
  injection Hlen as Hlen. rewrite andb_true_iff, bool_decide_eq_true.
  rewrite (IH b Hlen). split.
  - intros [-> ->]. done.
  - intros [= -> ->]. done.
Qed.

(** Split a successful sequence of statements into its steps. *)
Ltac inv_bind H :=
  repeat match type of H with
         | (_ ≫= _) = Ok _ =>
             let a := fresh "a" in
             let Ha := fresh "Ha" in
             apply bind_Ok_inv in H as (a & Ha & H)
         end.

Lemma Predict_init_wf f_ Df_ pids_ yids_ pdim_ ydim_ p0_ rank_ ptype_ prior_
    pred (self : Predict) :
  Predict_init f_ Df_ pids_ yids_ pdim_ ydim_ p0_ rank_ ptype_ prior_ pred
    = Ok self ->
  Predict_wf self.
Proof.
  unfold Predict_init. intros H.
  destruct pred as [pr|]; inv_bind H;
    match goal with
    | Hs : Series_init _ _ = Ok _ |- _ =>
        apply Series_init_inv in Hs as [-> Hlen]
    end;
    injection H as <-; done.
Qed.

(** Every prediction the module builds is in that state. *)
Lemma add_wf (A B AB : Predict) : __add__ A B = Ok AB -> Predict_wf AB.
Proof.
  unfold __add__. intros H. inv_bind H. by apply Predict_init_wf in H.
Qed.

Lemma get_in_logp_wf (self logpred : Predict) :
  get_in_logp self = Ok logpred -> Predict_wf logpred.
Proof.
  unfold get_in_logp. intros H. inv_bind H. by apply Predict_init_wf in H.
Qed.

Lemma str2predict_wf globals funcstr pids uids us c p0 yids (pred : Predict) :
  str2predict globals funcstr pids uids us c p0 yids = Ok pred ->
  Predict_wf pred.
Proof.
  unfold str2predict. intros H. inv_bind H. by apply Predict_init_wf in H.
Qed.

(** ** Default argument of the wrapped function *)

(** C8: calling the wrapped function [f] with no argument ([None]), also
    through [__call__], gives the same labeled output as calling it with the
    stored default parameter vector [p0]. *)
Theorem f_default_is_p0 (self : Predict) :
  f self None = f self (Some (values (p0 self))) /\
  __call__ self None = __call__ self (Some (values (p0 self))).
Proof. split; reflexivity. Qed.

(** For a prediction built by the module the stored default is also the raw
    array [_p0]. *)
Lemma f_default_is_raw_p0 (self : Predict) :
  Predict_wf self -> f self None = f self (Some (_p0 self)).
Proof. intros (_ & Hv & _). unfold f. by rewrite Hv. Qed.

(** ** Concatenation of predictions *)

Lemma add_pids_differ (A B : Predict) :
  pids A <> pids B -> __add__ A B = Err (AssertionError "pids not the same").
Proof. intros H. unfold __add__. by rewrite bool_decide_eq_false_2. Qed.

Lemma add_p0_differ (A B : Predict) :
  Predict_wf A -> Predict_wf B ->
  pids A = pids B -> _p0 A <> _p0 B ->
  __add__ A B = Err (AssertionError "p0 not the same").
Proof.
  intros (HiA & HvA & HlA) (HiB & HvB & HlB) Hpids Hp0. unfold __add__.
  rewrite bool_decide_eq_true_2 by done. simpl.
  unfold Series_eq. rewrite decide_True by (split; congruence). simpl.
  destruct (all _) eqn:Hall; [|done].
  apply all_eq_iff in Hall; congruence.
Qed.

Lemma add_Ok (A B : Predict) :
  Predict_wf A -> Predict_wf B ->
  pids A = pids B -> _p0 A = _p0 B ->
  exists AB,
    __add__ A B = Ok AB /\
    yids AB = yids A ++ yids B /\
    pids AB = pids A /\
    p0 AB = p0 A /\
    ptype AB = ptype A /\
    (forall p, _f AB p =
               (ya ← _f A p; yb ← _f B p; mret (np.concatenate ya yb))) /\
    (forall p, _Df AB p =
               (ja ← _Df A p; jb ← _Df B p; np.concatenate_rows ja jb)).
Proof.
  intros (HiA & HvA & HlA) (HiB & HvB & HlB) Hpids Hp0. unfold __add__.
  rewrite bool_decide_eq_true_2 by done. simpl.
  unfold Series_eq. rewrite decide_True by (split; congruence). simpl.
  replace (all _) with true
    by (symmetry; apply all_eq_iff; congruence).
  simpl. unfold Predict_init. simpl.
  rewrite Series_init_Ok by congruence. simpl.
  eexists. split; [reflexivity|]. simpl.
  repeat split; try done.
  destruct (p0 A); simpl in *; congruence.
Qed.

(** C1: for predictions [A] and [B] with the same parameter identifiers and
    the same default vector, [A + B] is built, its output identifiers are
    those of [A] followed by those of [B], and at every parameter vector
    (also the default one, [None]) its output is the output of [A] followed
    by the output of [B], both for the raw function and for the labeled
    call. *)
Theorem add_concatenates_outputs (A B : Predict) :
  Predict_wf A -> Predict_wf B ->
  pids A = pids B -> p0 A = p0 B ->
  exists AB,
    __add__ A B = Ok AB /\
    yids AB = yids A ++ yids B /\
    (forall p ya yb,
        _f A p = Ok ya -> _f B p = Ok yb -> _f AB p = Ok (ya ++ yb)) /\
    (forall p sa sb,
        __call__ A p = Ok sa -> __call__ B p = Ok sb ->
        __call__ AB p = Ok (Series_append sa sb)).
Proof.
  intros HA HB Hpids Hp0.
  assert (H_p0 : _p0 A = _p0 B).
  { destruct HA as (_ & <- & _), HB as (_ & <- & _). by rewrite Hp0. }
  destruct (add_Ok A B HA HB Hpids H_p0)
    as (AB & Hadd & Hyids & _ & Hp0AB & _ & Hf & _).
  exists AB. split; [done|]. split; [done|]. split.
  - intros p ya yb Ha Hb. rewrite Hf, Ha, Hb. reflexivity.
  - intros p sa sb. unfold __call__, f. rewrite Hp0AB, <- Hp0, Hf, Hyids.
    intros Ha Hb. inv_bind Ha. inv_bind Hb.
    rewrite Ha0, Ha1. simpl.
    apply Series_init_inv in Ha as [-> Hla].
    apply Series_init_inv in Hb as [-> Hlb].
    unfold np.concatenate. rewrite Series_init_Ok.
    + reflexivity.
    + rewrite !length_app. congruence.
Qed.

(** C5: combining two predictions stops with an assertion failure exactly
    when their parameter identifiers differ or their default parameter
    vectors differ; then no combined prediction is returned, and otherwise
    one is. *)
Theorem add_asserts_compatibility (A B : Predict) :
  Predict_wf A -> Predict_wf B ->
  (is_assertion_error (__add__ A B) <->
     (pids A <> pids B \/ _p0 A <> _p0 B)) /\
  ((pids A <> pids B \/ _p0 A <> _p0 B) ->
     forall AB, __add__ A B <> Ok AB) /\
  (pids A = pids B -> _p0 A = _p0 B -> exists AB, __add__ A B = Ok AB).
Proof.
  intros HA HB.
  assert (Hfail : (pids A <> pids B \/ _p0 A <> _p0 B) ->
                  is_assertion_error (__add__ A B)).
  { intros H. destruct (decide (pids A = pids B)) as [Hp|Hp].
    - destruct H as [H|H]; [done|].
      eexists. by apply add_p0_differ.
    - eexists. by apply add_pids_differ. }
  assert (Hok : pids A = pids B -> _p0 A = _p0 B ->
                exists AB, __add__ A B = Ok AB).
  { intros Hp H0. destruct (add_Ok A B HA HB Hp H0) as (AB & ? & _). eauto. }
  split; [split; [|done]|split; [|done]].
  - intros [msg Hmsg].
    destruct (decide (pids A = pids B)) as [Hp|Hp]; [|by left].
    destruct (decide (_p0 A = _p0 B)) as [H0|H0]; [|by right].
    destruct (Hok Hp H0) as (AB & HAB). congruence.
  - intros H AB HAB. destruct (Hfail H) as [msg Hmsg]. congruence.
Qed.

(** ** Error bars *)

(** C9: with an error model other than ['constant'], ['cv'] and ['mixed']
    none of the three branches assigns [sigma]; the call raises, and when
    the prediction itself evaluates the error is the unbound local
    variable.  No value is returned. *)
Theorem get_sigma_unknown_errormodel (self : Predict) (p : option (list R))
    (errormodel : string) (constant_sigma cv : R) :
  errormodel <> "constant" -> errormodel <> "cv" -> errormodel <> "mixed" ->
  raises (get_sigma self p errormodel constant_sigma cv) /\
  (forall y, f self p = Ok y ->
     get_sigma self p errormodel constant_sigma cv
       = Err (UnboundLocalError "sigma")) /\
  (forall sigma,
     get_sigma self p errormodel constant_sigma cv <> Ok sigma).
Proof.
  intros H1 H2 H3. unfold get_sigma, raises.
  rewrite !bool_decide_eq_false_2 by done.
  destruct (f self p) as [y|e]; simpl.
  - split; [eauto|]. split; [done|]. intros sigma. discriminate.
  - split; [eauto|]. split; [discriminate|]. intros sigma. discriminate.
Qed.

Example get_sigma_models :
  get_sigma pred_id None "constant" 1 (1/10)
    = Ok {| values := [1; 1]; index := ["ya"; "yb"] |} /\
  get_sigma pred_id None "cv" 1 (1/10)
    = Ok {| values := [1 * (1/10); 2 * (1/10)]; index := ["ya"; "yb"] |}.
Proof. split; reflexivity. Qed.

Lemma get_sigma_propagates (self : Predict) (p : option (list R))
    (errormodel : string) (constant_sigma cv : R) (e : exn) :
  f self p = Err e ->
  get_sigma self p errormodel constant_sigma cv = Err e.
Proof. intros H. unfold get_sigma. by rewrite H. Qed.

Lemma f_Ok_inv (self : Predict) (p : option (list R)) (y : Series) :
  f self p = Ok y ->
  index y = yids self /\ length (values y) = length (yids self).
Proof.
  unfold f. intros H. inv_bind H.
  apply Series_init_inv in H as [-> Hlen]. done.
Qed.

Lemma get_sigma_constant (self : Predict) (p : option (list R))
    (constant_sigma cv : R) (y : Series) :
  f self p = Ok y ->
  get_sigma self p "constant" constant_sigma cv
    = Ok {| values := replicate (length (yids self)) constant_sigma;
            index := yids self |}.
Proof.
  intros H. destruct (f_Ok_inv self p y H) as [_ Hlen].
  unfold get_sigma. rewrite H. simpl.
  rewrite Series_init_Ok by (by rewrite length_replicate).
  simpl. by rewrite Hlen.
Qed.

Lemma get_sigma_cv (self : Predict) (p : option (list R))
    (constant_sigma cv : R) (y : Series) :
  f self p = Ok y ->
  get_sigma self p "cv" constant_sigma cv
    = Ok {| values := map (fun v => v * cv) (values y);
            index := yids self |}.
Proof.
  intros H. destruct (f_Ok_inv self p y H) as [Hidx _].
  unfold get_sigma. rewrite H. simpl. unfold Series_mul. by rewrite Hidx.
Qed.

Lemma get_sigma_mixed (self : Predict) (p : option (list R))
    (constant_sigma cv : R) (y : Series) :
  f self p = Ok y ->
  get_sigma self p "mixed" constant_sigma cv
    = Ok {| values := map (fun v => Rmax (v * cv) constant_sigma) (values y);
            index := yids self |}.
Proof.
  intros H. destruct (f_Ok_inv self p y H) as [_ Hlen].
  unfold get_sigma. rewrite H. simpl. unfold np.max_axis0.
  rewrite zip_with_replicate_r_eq by (by rewrite length_map).
  change (?g <$> map ?h ?l) with (map g (map h l)). rewrite map_map.
  rewrite Series_init_Ok by (by rewrite length_map). done.
Qed.

(** C6: at every parameter vector where the prediction evaluates, the
    three error models return: ['constant'] gives [constant_sigma] at each
    output, ['cv'] gives the output times [cv], and ['mixed'] gives, at
    each output index, the larger of these two values, with the same
    labels. *)
Theorem get_sigma_mixed_is_max (self : Predict) (p : option (list R))
    (constant_sigma cv : R) (y : Series) :
  f self p = Ok y ->
  exists s_const s_cv s_mixed,
    get_sigma self p "constant" constant_sigma cv = Ok s_const /\
    get_sigma self p "cv" constant_sigma cv = Ok s_cv /\
    get_sigma self p "mixed" constant_sigma cv = Ok s_mixed /\
    values s_const = replicate (length (values y)) constant_sigma /\
    values s_cv = map (fun v => v * cv) (values y) /\
    values s_mixed = zip_with Rmax (values s_cv) (values s_const) /\
    index s_const = yids self /\ index s_cv = yids self /\
    index s_mixed = yids self /\
    (forall i v,
        values y !! i = Some v ->
        values s_const !! i = Some constant_sigma /\
        values s_cv !! i = Some (v * cv) /\
        values s_mixed !! i = Some (Rmax (v * cv) constant_sigma)).
Proof.
  intros Hy. destruct (f_Ok_inv self p y Hy) as [_ Hlen].
  rewrite (get_sigma_constant self p constant_sigma cv y Hy).
  rewrite (get_sigma_cv self p constant_sigma cv y Hy).
  rewrite (get_sigma_mixed self p constant_sigma cv y Hy).
  eexists _, _, _. repeat (split; [reflexivity|]). simpl.
  split; [by rewrite Hlen|]. split; [done|]. split.
  { rewrite <- Hlen.
    rewrite zip_with_replicate_r_eq by (by rewrite length_map).
    change (?g <$> map ?h ?l) with (map g (map h l)). by rewrite map_map. }
  repeat (split; [done|]).
  intros i v Hi. split; [|split].
  - apply lookup_replicate. split; [done|].
    rewrite <- Hlen. by apply lookup_lt_Some in Hi.
  - change (map ?g ?l) with (g <$> l). by rewrite list_lookup_fmap, Hi.
  - change (map ?g ?l) with (g <$> l). by rewrite list_lookup_fmap, Hi.
Qed.

(** ** Log-parameters *)

Lemma get_in_logp_not_bare (self : Predict) :
  ptype self <> "" ->
  get_in_logp self = Err (AssertionError "not in bare parametrization").
Proof. intros H. unfold get_in_logp. by rewrite bool_decide_eq_false_2. Qed.

Lemma get_in_logp_ptype (self logpred : Predict) :
  get_in_logp self = Ok logpred -> ptype logpred = "logp".
Proof.
  unfold get_in_logp, Predict_init. intros H. inv_bind H.
  by injection H as <-.
Qed.

Lemma get_in_logp_Ok (self : Predict) :
  Predict_wf self -> ptype self = "" ->
  exists logpred,
    get_in_logp self = Ok logpred /\
    yids logpred = yids self /\
    pids logpred = map (fun pid => "log_" +:+ pid) (pids self) /\
    _p0 logpred = np.log (_p0 self) /\
    (forall logp, _f logpred logp = _f self (np.exp logp)) /\
    (forall logp, _Df logpred logp =
                  (jac ← _Df self (np.exp logp);
                   np.multiply_rows jac (np.exp logp))).
Proof.
  intros (Hi & Hv & Hl) Hbare. unfold get_in_logp.
  rewrite bool_decide_eq_true_2 by done. unfold Predict_init. simpl.
  rewrite Series_init_Ok by (unfold np.log; by rewrite !length_map).
  simpl.
  rewrite Series_init_Ok by (unfold np.log; by rewrite !length_map).
  simpl. eexists. split; [reflexivity|]. done.
Qed.

(** C10: a prediction that is not in bare parametrization is refused by
    [get_in_logp] with an assertion failure; in particular the result of
    [get_in_logp], whose [ptype] is ['logp'], cannot be reparametrized
    again. *)
Theorem get_in_logp_requires_bare (self : Predict) :
  (ptype self <> "" ->
   get_in_logp self = Err (AssertionError "not in bare parametrization")) /\
  (forall logpred,
     get_in_logp self = Ok logpred ->
     ptype logpred = "logp" /\
     get_in_logp logpred
       = Err (AssertionError "not in bare parametrization")).
Proof.
  split; [apply get_in_logp_not_bare|].
  intros logpred H. apply get_in_logp_ptype in H.
  split; [done|]. apply get_in_logp_not_bare. by rewrite H.
Qed.


(** The log-space prediction evaluates the original at the exponential
    of its argument.  Nothing is inverted here, so this holds whatever the
    rounding of [np.exp] is. *)
Lemma get_in_logp_call_at_exp (self logpred : Predict) (logp : list R) :
  Predict_wf self ->
  get_in_logp self = Ok logpred ->
  _f logpred logp = _f self (np.exp logp) /\
  __call__ logpred (Some logp) = __call__ self (Some (np.exp logp)).
Proof.
  intros Hwf Hlog.
  assert (Hbare : ptype self = "").
  { destruct (decide (ptype self = "")) as [|Hne]; [done|].
    rewrite (get_in_logp_not_bare self Hne) in Hlog. discriminate. }
  destruct (get_in_logp_Ok self Hwf Hbare)
    as (logpred' & Hlog' & Hyids & _ & _ & Hf & _).
  assert (logpred' = logpred) as -> by congruence.
  split; [apply Hf|]. unfold __call__, f. by rewrite Hf, Hyids.
Qed.

Lemma broadcast_same_length (op : R -> R -> R) (a b : list R) :
  length a = length b -> np.broadcast op a b = Ok (zip_with op a b).
Proof. intros H. unfold np.broadcast. by rewrite decide_True. Qed.

Lemma multiply_rows_scale (J : list (list R)) (v : list R) :
  Forall (fun row => length row = length v) J ->
  np.multiply_rows J v = Ok (scale_columns J v).
Proof.
  unfold np.multiply_rows, scale_columns.
  induction 1 as [|row J Hrow _ IH]; simpl; [done|].
  rewrite (broadcast_same_length Rmult row v Hrow : np.multiply row v = _).
  simpl. by rewrite IH.
Qed.

Lemma scale_columns_lookup (J : list (list R)) (v row : list R)
    (i j : nat) (x pj : R) :
  J !! i = Some row -> row !! j = Some x -> v !! j = Some pj ->
  exists row', scale_columns J v !! i = Some row' /\
               row' !! j = Some (x * pj).
Proof.
  intros HJ Hrow Hv. unfold scale_columns.
  exists (zip_with Rmult row v). split.
  - by rewrite list_lookup_fmap, HJ.
  - rewrite lookup_zip_with, Hrow. simpl. by rewrite Hv.
Qed.

Lemma multiply_rows_mismatch (row : list R) (J : list (list R))
    (v : list R) :
  length row <> length v -> length row <> 1%nat -> length v <> 1%nat ->
  np.multiply_rows (row :: J) v
    = Err (ValueError "operands could not be broadcast together").
Proof.
  intros H1 H2 H3.
  assert (Hrow : np.multiply row v
            = Err (ValueError "operands could not be broadcast together")).
  { unfold np.multiply, np.broadcast. rewrite decide_False by done.
    destruct row as [|x [|x' row]], v as [|y [|y' v]]; simpl in *; done. }
  unfold np.multiply_rows. cbn [mapM]. by rewrite Hrow.
Qed.

(** C3: the Jacobian of the log-space prediction at [logp] is the Jacobian
    of the original at [exp logp] with each column [j] multiplied by the
    [j]-th component of [exp logp], for a Jacobian with at least one row
    and one column per parameter; the labeled Jacobian carries the same
    entries, with the parameter labels prefixed by ['log_'].  A Jacobian
    whose rows neither match the parameters nor broadcast against them
    makes the call raise. *)
Theorem logp_jacobian_chain_rule (self : Predict) :
  Predict_wf self -> ptype self = "" ->
  exists logpred,
    get_in_logp self = Ok logpred /\
    (forall logp J,
        _Df self (np.exp logp) = Ok J ->
        J <> [] ->
        Forall (fun row => length row = length logp) J ->
        _Df logpred logp = Ok (scale_columns J (np.exp logp))) /\
    (forall logp m,
        length logp = length (pids self) ->
        Df self (Some (np.exp logp)) = Ok m ->
        mvalues m <> [] ->
        Df logpred (Some logp)
          = Ok {| mvalues := scale_columns (mvalues m) (np.exp logp);
                  mindex := mindex m;
                  mcolumns := map (fun pid => "log_" +:+ pid) (mcolumns m) |}) /\
    (forall logp row J,
        _Df self (np.exp logp) = Ok (row :: J) ->
        length row <> length logp -> length row <> 1%nat ->
        length logp <> 1%nat ->
        _Df logpred logp
          = Err (ValueError "operands could not be broadcast together")).
Proof.
  intros Hwf Hbare.
  destruct (get_in_logp_Ok self Hwf Hbare)
    as (logpred & Hlog & Hyids & Hpids & _ & _ & HDf).
  exists logpred. split; [done|].
  assert (Hraw : forall logp J,
    _Df self (np.exp logp) = Ok J ->
    Forall (fun row => length row = length logp) J ->
    _Df logpred logp = Ok (scale_columns J (np.exp logp))).
  { intros logp J HJ Hshape. rewrite HDf, HJ. simpl.
    apply multiply_rows_scale. unfold np.exp. by rewrite length_map. }
  split; [intros logp J HJ _; by apply Hraw|]. split.
  - intros logp m Hlen Hm _. unfold Df in *. inv_bind Hm.
    unfold Matrix_init in Hm. case_decide as Hshape; [|discriminate].
    destruct Hshape as [Hrows Hcols]. injection Hm as <-. simpl.
    rewrite (Hraw logp a Ha) by (by rewrite Hlen). simpl.
    unfold Matrix_init. rewrite decide_True; [by rewrite Hyids, Hpids|].
    split.
    + unfold scale_columns. by rewrite length_map, Hyids.
    + unfold scale_columns. rewrite Forall_fmap.
      eapply Forall_impl; [exact Hcols|]. intros row Hrow. simpl.
      unfold np.exp. rewrite length_zip_with, length_map, Hpids, length_map.
      simpl in Hrow. lia.
  - intros logp row J HJ H1 H2 H3. rewrite HDf, HJ, bind_Ok.
    apply multiply_rows_mismatch; [|done|];
      unfold np.exp; by rewrite length_map.
Qed.

(** ** Finite differences *)

Lemma mapM_Ok_ext {A B} (fm : A -> result B) (g : A -> B) (l : list A) :
  (forall x, x ∈ l -> fm x = Ok (g x)) -> mapM fm l = Ok (map g l).
Proof.
  induction l as [|x l IH]; intros H; simpl; [done|].
  rewrite (H x) by left. simpl.
  rewrite IH by (intros y Hy; apply H; by right). done.
Qed.

Lemma enumerate_elem {A} (l : list A) (i : nat) (x : A) :
  (i, x) ∈ enumerate l -> (i < length l)%nat.
Proof.
  unfold enumerate. intros H. apply elem_of_zip_l in H.
  apply elem_of_seq in H. lia.
Qed.

Lemma enumerate_fst {A} (l : list A) : (enumerate l).*1 = seq 0 (length l).
Proof. unfold enumerate. apply fst_zip. by rewrite length_seq. Qed.

Lemma map_nth_seq {A} (l : list A) (d : A) :
  map (fun i => nth i l d) (seq 0 (length l)) = l.
Proof.
  induction l as [|x l IH]; simpl; [done|].
  f_equal. rewrite <- seq_shift, map_map. exact IH.
Qed.

Lemma dot_zeros (row : list R) (n : nat) : dot row (replicate n 0) = 0.
Proof.
  unfold dot. revert n. induction row as [|r row IH]; intros [|n]; simpl;
    try done.
  rewrite IH. lra.
Qed.

Lemma dot_unit (row : list R) (i n : nat) (delta : R) :
  (i < n)%nat ->
  dot row (<[i := delta]> (replicate n 0)) = nth i row 0 * delta.
Proof.
  revert i n. induction row as [|r row IH]; intros i n Hi.
  - unfold dot. destruct i; simpl; lra.
  - destruct n as [|n]; [lia|]. destruct i as [|i]; simpl.
    + unfold dot. simpl. fold (dot row (replicate n 0)).
      rewrite dot_zeros. lra.
    + unfold dot. simpl. fold (dot row (<[i:=delta]> (replicate n 0))).
      rewrite IH by lia. lra.
Qed.

Lemma dot_central_difference (row p d : list R) :
  length p = length d ->
  dot row (zip_with Rplus p d) - dot row (zip_with Rminus p d)
    = 2 * dot row d.
Proof.
  revert p d. induction row as [|r row IH]; intros [|x p] [|y d] Hlen;
    simpl in *; try discriminate; unfold dot; simpl; try lra.
  injection Hlen as Hlen. specialize (IH p d Hlen). unfold dot in IH. nra.
Qed.

Lemma linear_map_Ok (M : list (list R)) (p q : list R) :
  Forall (fun row => length row = length p) M -> length q = length p ->
  linear_map M q = Ok (map (fun row => dot row q) M).
Proof.
  intros HM Hq. unfold linear_map. rewrite decide_True; [done|].
  by rewrite Hq.
Qed.

Lemma fd_column (M : list (list R)) (r : R) (p : list R) (i : nat) (p_i : R) :
  0 < r -> (i < length p)%nat ->
  Forall (fun row => length row = length p) M ->
  (let deltap_i := Rmax (p_i * r) r in
   let deltap := <[i := deltap_i]> (np.zeros (length p)) in
   p_plus ← np.add p deltap;
   p_minus ← np.subtract p deltap;
   y_plus ← linear_map M p_plus;
   y_minus ← linear_map M p_minus;
   d ← np.subtract y_plus y_minus;
   mret (map (fun y => y / 2 / deltap_i) d))
  = Ok (map (fun row => nth i row 0) M).
Proof.
  intros Hr Hi HM. cbv zeta.
  set (delta := Rmax (p_i * r) r).
  assert (Hdelta : 0 < delta).
  { unfold delta. pose proof (Rmax_r (p_i * r) r). lra. }
  set (deltap := <[i := delta]> (np.zeros (length p))).
  assert (Hlen : length p = length deltap).
  { unfold deltap, np.zeros. by rewrite length_insert, length_replicate. }
  unfold np.add, np.subtract.
  rewrite !(broadcast_same_length _ p deltap Hlen). simpl.
  rewrite (linear_map_Ok M p)
    by (done || rewrite length_zip_with; lia). simpl.
  rewrite (linear_map_Ok M p)
    by (done || rewrite length_zip_with; lia). simpl.
  rewrite broadcast_same_length by (by rewrite !length_map). simpl.
  f_equal. rewrite zip_with_fmap_l, zip_with_fmap_r, zip_with_diag.
  rewrite map_map. apply map_ext_in. intros row Hrow.
  rewrite dot_central_difference by done.
  unfold deltap, np.zeros. rewrite dot_unit by done.
  field. lra.
Qed.

Lemma transpose_of_columns (M : list (list R)) (n : nat) :
  (0 < n)%nat -> Forall (fun row => length row = n) M ->
  np.transpose (map (fun i => map (fun row => nth i row 0) M) (seq 0 n))
    = Ok M.
Proof.
  intros Hn HM.
  set (col := fun i => map (fun row : list R => nth i row 0) M).
  assert (Hcols : np.columns (map col (seq 0 n)) = M).
  { destruct n as [|n]; [lia|]. unfold np.columns.
    change (map col (seq 0 (S n))) with (col 0%nat :: map col (seq 1 n)).
    cbv iota. change (col 0%nat :: map col (seq 1 n))
      with (map col (seq 0 (S n))).
    replace (length (col 0%nat)) with (length M)
      by (unfold col; by rewrite length_map).
    rewrite <- (map_nth_seq M []) at 2.
    apply map_ext_in. intros k Hk. apply in_seq in Hk.
    rewrite map_map. unfold col.
    rewrite <- (map_nth_seq (nth k M []) 0).
    assert (Hlen : length (nth k M []) = S n).
    { rewrite Forall_forall in HM. apply HM, list_elem_of_In, nth_In. lia. }
    rewrite Hlen. apply map_ext. intros i.
    rewrite <- (map_nth (fun row : list R => nth i row 0) M [] k) .
    by destruct i. }
  unfold np.transpose. destruct (map col (seq 0 n)) as [|c rows] eqn:Hrows.
  { destruct n; [lia|discriminate]. }
  rewrite Hcols.
  replace (forallb _ _) with true; [done|].
  symmetry. apply forallb_forall. intros row Hrow.
  apply bool_decide_eq_true.
  assert (Hc : In c (map col (seq 0 n))) by (rewrite Hrows; by left).
  rewrite <- Hrows in Hrow.
  apply in_map_iff in Hrow as (i & <- & _).
  apply in_map_iff in Hc as (j & <- & _).
  unfold col. by rewrite !length_map.
Qed.

(** C4: for a linear function [f(p) = M p] the central-difference Jacobian
    with steps [max (p_i * rdeltap) rdeltap] is the matrix [M] itself, at
    every non-empty parameter vector [p] matching the columns of [M] and
    for every positive relative step (the default [RDELTAP] included). *)
Theorem get_Df_fd_linear_exact (M : list (list R)) (rdeltap : option R)
    (p : list R) :
  0 < default RDELTAP rdeltap ->
  p <> [] ->
  Forall (fun row => length row = length p) M ->
  get_Df_fd (linear_map M) rdeltap p = Ok M.
Proof.
  intros Hr Hp HM. unfold get_Df_fd.
  replace (match rdeltap with Some r => r | None => RDELTAP end)
    with (default RDELTAP rdeltap) by (by destruct rdeltap).
  set (r := default RDELTAP rdeltap) in *.
  rewrite (mapM_Ok_ext _ (fun x => map (fun row => nth x.1 row 0) M)).
  2:{ intros [i p_i] Hin. apply enumerate_elem in Hin.
      by apply fd_column. }
  simpl.
  rewrite <- (map_map fst (fun i => map (fun row => nth i row 0) M)).
  change (map fst (enumerate p)) with ((enumerate p).*1).
  rewrite enumerate_fst.
  apply transpose_of_columns; [|done].
  destruct p; [done|simpl; lia].
Qed.

(** With no parameter the loop does not run and the transposed list is the
    empty array, whatever the number of outputs. *)
Example get_Df_fd_no_parameters :
  get_Df_fd (linear_map [[]; []]) None [] = Ok [].
Proof. reflexivity. Qed.

(** ** Expression strings *)

Example parse_docstring_expression :
  parse_string "V*x/(K+x)"
  = Ok (BinOp Div (BinOp Mul (Name "V") (Name "x"))
                  (BinOp Add (Name "K") (Name "x"))).
Proof. vm_compute. reflexivity. Qed.

Lemma global_util_unbound :
  global_util predict_globals = Err (NameError "util").
Proof. reflexivity. Qed.

(** [str2predict] reaches a prediction only when nothing is substituted:
    as soon as [c] is given or [us] has a row, [util] is looked up. *)
Lemma str2predict_util_unbound funcstr pids uids us c p0 yids :
  c <> None \/ us <> [] ->
  str2predict predict_globals funcstr pids uids us c p0 yids
    = Err (NameError "util").
Proof.
  intros H. unfold str2predict. rewrite global_util_unbound.
  destruct c as [c|]; [done|]. destruct us as [|u us]; [|done].
  by destruct H.
Qed.

(** Without inputs and constants nothing is substituted and the prediction
    with no output is built. *)
Example str2predict_no_inputs :
  exists pred,
    str2predict predict_globals "V*x/(K+x)" ["V"; "K"] ["x"] [] None None None
      = Ok pred /\
    _f pred [1; 1] = Ok [].
Proof. eexists. split; reflexivity. Qed.

(** C7: the docstring example of [str2predict].  The first use of
    [util], in the comprehension over [us], raises a [NameError]: no
    prediction is built, so none evaluates to [[1/2, 2/3, 3/4]]. *)
Theorem str2predict_example_raises :
  str2predict predict_globals "V*x/(K+x)" ["V"; "K"] ["x"]
    [[1]; [2]; [3]]%Z None None None = Err (NameError "util").
Proof. apply str2predict_util_unbound. right. discriminate. Qed.


Lemma example_ystrs :
  mapM (fun u => util ← global_util example_globals;
                 sub_expr util "V*x/(K+x)" (dict (zip ["x"] u)))
       [[1]; [2]; [3]]%Z
  = Ok ["((V*1)/(K+1))"; "((V*2)/(K+2))"; "((V*3)/(K+3))"].
Proof. vm_compute. reflexivity. Qed.

Lemma example_ycode :
  compile_list
    (remove_quotes
       (str_list (repr_string <$>
                  ["((V*1)/(K+1))"; "((V*2)/(K+2))"; "((V*3)/(K+3))"])))
  = Ok [BinOp Div (BinOp Mul (Name "V") (Num 1)) (BinOp Add (Name "K") (Num 1));
        BinOp Div (BinOp Mul (Name "V") (Num 2)) (BinOp Add (Name "K") (Num 2));
        BinOp Div (BinOp Mul (Name "V") (Num 3)) (BinOp Add (Name "K") (Num 3))].
Proof. vm_compute. reflexivity. Qed.

Lemma example_jaccode :
  exists jaccode,
    (jaclist ← mapM (fun u =>
                    util ← global_util example_globals;
                    funcstr_u ← sub_expr util "V*x/(K+x)" (dict (zip ["x"] u));
                    mapM (fun pid =>
                            util ← global_util example_globals;
                            util' ← global_util example_globals;
                            d ← diff_expr util' funcstr_u pid;
                            simplify_expr util d) ["V"; "K"]) [[1]; [2]; [3]]%Z;
     compile_list2
       (remove_quotes
          (str_list ((fun row => str_list (repr_string <$> row)) <$> jaclist))))
    = Ok jaccode.
Proof. eexists. vm_compute. reflexivity. Qed.

Lemma eval_binop_div (x y : R) : y <> 0 -> eval_binop Div x y = Ok (x / y).
Proof. intros H. unfold eval_binop. by rewrite decide_False. Qed.


Lemma lookup_name_V (v k : R) :
  lookup_name (dict (zip ["V"; "K"] [v; k])) mathsubs "V" = Ok (VNum v).
Proof.
  unfold lookup_name. replace (mathsubs !! "V") with (@None pyval) by done.
  unfold dict. simpl. by rewrite lookup_insert_ne, lookup_insert_eq.
Qed.

Lemma lookup_name_K (v k : R) :
  lookup_name (dict (zip ["V"; "K"] [v; k])) mathsubs "K" = Ok (VNum k).
Proof.
  unfold lookup_name. replace (mathsubs !! "K") with (@None pyval) by done.
  unfold dict. simpl. by rewrite lookup_insert_eq.
Qed.

Lemma eval_michaelis_menten (v k : R) (x : Z) :
  k + IZR x <> 0 ->
  eval_expr (dict (zip ["V"; "K"] [v; k])) mathsubs
    (BinOp Div (BinOp Mul (Name "V") (Num x)) (BinOp Add (Name "K") (Num x)))
  = Ok (v * IZR x / (k + IZR x)).
Proof.
  intros H. cbn [eval_expr]. rewrite lookup_name_V, lookup_name_K. simpl.
  by rewrite decide_False.
Qed.

(** With [util] bound to helpers as the spec describes them, the example
    builds a prediction that returns [[1/2, 2/3, 3/4]] at [[1, 1]], which is
    also its default parameter vector. *)
Lemma str2predict_example_repaired :
  exists pred,
    str2predict example_globals "V*x/(K+x)" ["V"; "K"] ["x"]
      [[1]; [2]; [3]]%Z None None None = Ok pred /\
    _f pred [1; 1] = Ok [1/2; 2/3; 3/4] /\
    __call__ pred None
      = Ok {| values := [1/2; 2/3; 3/4];
              index := ["u=[1]"; "u=[2]"; "u=[3]"] |}.
Proof.
  destruct example_jaccode as [jaccode Hjac].
  apply bind_Ok_inv in Hjac as (jaclist & Hjaclist & Hjaccode).
  eexists. split.
  - unfold str2predict. rewrite bind_Ok. rewrite example_ystrs, bind_Ok.
    rewrite example_ycode, bind_Ok. rewrite Hjaclist, bind_Ok.
    rewrite Hjaccode, bind_Ok. reflexivity.
  - assert (Hval : mapM (eval_expr (dict (zip ["V"; "K"] [1; 1])) mathsubs)
        [BinOp Div (BinOp Mul (Name "V") (Num 1)) (BinOp Add (Name "K") (Num 1));
         BinOp Div (BinOp Mul (Name "V") (Num 2)) (BinOp Add (Name "K") (Num 2));
         BinOp Div (BinOp Mul (Name "V") (Num 3)) (BinOp Add (Name "K") (Num 3))]
        = Ok [1/2; 2/3; 3/4]).
    { cbn [mapM]. rewrite !eval_michaelis_menten by lra. simpl.
      repeat f_equal; lra. }
    split; [exact Hval|].
    unfold __call__, f. cbn [_f p0 values yids]. 
    change (replicate (length ["V"; "K"]) 1) with [1; 1].
    rewrite Hval. reflexivity.
Qed.

(** ** The statements at sample predictions *)

Lemma pred_id_wf : Predict_wf pred_id.
Proof. by repeat split. Qed.

Lemma pred_sum_wf : Predict_wf pred_sum.
Proof. by repeat split. Qed.

Lemma pred_sum'_wf : Predict_wf pred_sum'.
Proof. by repeat split. Qed.

Lemma add_concatenates_outputs_witness :
  exists AB,
    __add__ pred_id pred_sum = Ok AB /\
    yids AB = yids pred_id ++ yids pred_sum /\
    (forall p ya yb,
        _f pred_id p = Ok ya -> _f pred_sum p = Ok yb ->
        _f AB p = Ok (ya ++ yb)) /\
    (forall p sa sb,
        __call__ pred_id p = Ok sa -> __call__ pred_sum p = Ok sb ->
        __call__ AB p = Ok (Series_append sa sb)).
Proof.
  apply (add_concatenates_outputs pred_id pred_sum);
    [by repeat split | by repeat split | reflexivity | reflexivity].
Defined.

Lemma add_asserts_compatibility_witness :
  is_assertion_error (__add__ pred_id pred_sum') /\
  (exists AB, __add__ pred_id pred_sum = Ok AB).
Proof.
  split.
  - apply (add_asserts_compatibility pred_id pred_sum');
      [by repeat split | by repeat split |].
    right. simpl. intros [= H]. lra.
  - apply (add_asserts_compatibility pred_id pred_sum);
      [by repeat split | by repeat split | reflexivity | reflexivity].
Defined.

Lemma get_sigma_unknown_errormodel_witness :
  raises (get_sigma pred_id None "relative" 1 (1/10)) /\
  (forall y, f pred_id None = Ok y ->
     get_sigma pred_id None "relative" 1 (1/10)
       = Err (UnboundLocalError "sigma")) /\
  (forall sigma, get_sigma pred_id None "relative" 1 (1/10) <> Ok sigma).
Proof.
  apply (get_sigma_unknown_errormodel pred_id None "relative" 1 (1/10));
    discriminate.
Defined.

Lemma get_sigma_mixed_is_max_witness :
  exists s_const s_cv s_mixed,
    get_sigma pred_id (Some [1; 20]) "constant" 1 (1/10) = Ok s_const /\
    get_sigma pred_id (Some [1; 20]) "cv" 1 (1/10) = Ok s_cv /\
    get_sigma pred_id (Some [1; 20]) "mixed" 1 (1/10) = Ok s_mixed /\
    values s_const = replicate (length [1; 20]) 1 /\
    values s_cv = map (fun v => v * (1/10)) [1; 20] /\
    values s_mixed = zip_with Rmax (values s_cv) (values s_const) /\
    index s_const = yids pred_id /\ index s_cv = yids pred_id /\
    index s_mixed = yids pred_id /\
    (forall i v,
        [1; 20] !! i = Some v ->
        values s_const !! i = Some 1 /\
        values s_cv !! i = Some (v * (1/10)) /\
        values s_mixed !! i = Some (Rmax (v * (1/10)) 1)).
Proof.
  apply (get_sigma_mixed_is_max pred_id (Some [1; 20]) 1 (1/10)
           {| values := [1; 20]; index := ["ya"; "yb"] |}).
  reflexivity.
Defined.

Lemma get_in_logp_requires_bare_witness :
  exists logpred,
    get_in_logp pred_id = Ok logpred /\
    ptype logpred = "logp" /\
    get_in_logp logpred = Err (AssertionError "not in bare parametrization").
Proof.
  destruct (get_in_logp pred_id) as [logpred|e] eqn:H; [|discriminate H].
  exists logpred. split; [reflexivity|].
  apply (get_in_logp_requires_bare pred_id). exact H.
Defined.

Lemma logp_jacobian_chain_rule_witness :
  exists logpred,
    get_in_logp pred_id = Ok logpred /\
    (forall logp J,
        _Df pred_id (np.exp logp) = Ok J ->
        J <> [] ->
        Forall (fun row => length row = length logp) J ->
        _Df logpred logp = Ok (scale_columns J (np.exp logp))) /\
    (forall logp m,
        length logp = length (pids pred_id) ->
        Df pred_id (Some (np.exp logp)) = Ok m ->
        mvalues m <> [] ->
        Df logpred (Some logp)
          = Ok {| mvalues := scale_columns (mvalues m) (np.exp logp);
                  mindex := mindex m;
                  mcolumns := map (fun pid => "log_" +:+ pid) (mcolumns m) |}) /\
    (forall logp row J,
        _Df pred_id (np.exp logp) = Ok (row :: J) ->
        length row <> length logp -> length row <> 1%nat ->
        length logp <> 1%nat ->
        _Df logpred logp
          = Err (ValueError "operands could not be broadcast together")).
Proof.
  apply (logp_jacobian_chain_rule pred_id); [by repeat split | reflexivity].
Defined.

Lemma get_Df_fd_linear_exact_witness :
  get_Df_fd (linear_map [[1; 2]; [3; 4]]) None [1; 1] = Ok [[1; 2]; [3; 4]].
Proof.
  apply (get_Df_fd_linear_exact [[1; 2]; [3; 4]] None [1; 1]).
  - simpl. unfold RDELTAP. lra.
  - discriminate.
  - repeat constructor.
Defined.

(* ===================================================================== *)
(** * Further properties of the module *)

(** ** Construction *)

Lemma Series_init_not_assertion (data : list R) (idx : list string) :
  ~ is_assertion_error (Series_init data idx).
Proof.
  unfold Series_init, is_assertion_error. case_decide; intros [msg Hm];
    discriminate.
Qed.

(** X1: construction stops with an assertion failure exactly when no
    prediction is copied and the parameters, or the outputs, are given
    neither by identifiers nor by a dimension. *)
Theorem Predict_init_requires_ids f_ Df_ pids_ yids_ pdim_ ydim_ p0_ rank_
    ptype_ prior_ pred :
  is_assertion_error
    (Predict_init f_ Df_ pids_ yids_ pdim_ ydim_ p0_ rank_ ptype_ prior_ pred)
  <-> pred = None /\
      ((pids_ = None /\ pdim_ = None) \/ (yids_ = None /\ ydim_ = None)).
Proof.
  unfold Predict_init.
  destruct pred as [pr|]; simpl.
  { split; [|intros [[=] _]]. intros [msg H].
    destruct (Series_init _ _) eqn:Hs; simpl in H; [discriminate|].
    exfalso. apply (Series_init_not_assertion (_p0 pr) (pids pr)).
    exists msg. rewrite Hs. congruence. }
  destruct pids_ as [ids|], pdim_ as [n|], yids_ as [yds|], ydim_ as [m|];
    simpl;
    try (split; [|intros [_ [[? ?]|[? ?]]]; discriminate]; intros [msg H];
         match type of H with
         | context [Series_init ?d ?i] =>
             destruct (Series_init d i) eqn:Hs; simpl in H; [discriminate|];
             exfalso; apply (Series_init_not_assertion d i);
             exists msg; rewrite Hs; congruence
         end);
    try (split; [intros _; split; [done|]; (by left) || (by right)
                |intros _; by eexists]).
Qed.

Lemma length_default_ids (prefix : string) (n : nat) :
  length (default_ids prefix n) = n.
Proof. unfold default_ids. by rewrite length_map, length_seq. Qed.

Lemma default_ids_lookup (prefix : string) (n i : nat) :
  (i < n)%nat ->
  default_ids prefix n !! i = Some (prefix +:+ pretty (S i)).
Proof.
  intros Hi. unfold default_ids.
  change (map ?g ?l) with (g <$> l).
  rewrite list_lookup_fmap.
  replace (seq 1 n !! i) with (Some (S i)); [done|].
  symmetry. apply lookup_seq. lia.
Qed.

Lemma NoDup_default_ids (prefix : string) (n : nat) :
  NoDup (default_ids prefix n).
Proof.
  unfold default_ids. change (map ?g ?l) with (g <$> l).
  apply NoDup_fmap_2_strong; [|apply NoDup_seq].
  intros i j _ _ H. apply (inj (String.app prefix)) in H.
  by apply (inj pretty) in H.
Qed.

(** X2: a prediction given by its dimensions alone is always built: its
    identifiers are [p_1 .. p_n] and [y_1 .. y_m], all distinct, and its
    default parameter vector is [n] ones. *)
Theorem Predict_init_from_dims f_ Df_ (n m : nat) rank_ ptype_ prior_ :
  exists self,
    Predict_init f_ Df_ None None (Some n) (Some m) None rank_ ptype_ prior_
      None = Ok self /\
    pids self = default_ids "p_" n /\ yids self = default_ids "y_" m /\
    length (pids self) = n /\ length (yids self) = m /\
    NoDup (pids self) /\ NoDup (yids self) /\
    (forall i, (i < n)%nat -> pids self !! i = Some ("p_" +:+ pretty (S i))) /\
    (forall j, (j < m)%nat -> yids self !! j = Some ("y_" +:+ pretty (S j))) /\
    pdim self = n /\ ydim self = m /\
    p0 self = {| values := replicate n 1; index := default_ids "p_" n |}.
Proof.
  unfold Predict_init. simpl.
  rewrite Series_init_Ok
    by (by rewrite length_replicate, length_default_ids).
  eexists. split; [reflexivity|]. simpl.
  repeat split; auto using length_default_ids, NoDup_default_ids,
    default_ids_lookup.
Qed.

(** X3: copying a prediction ([pred] given) keeps its raw functions,
    identifiers, default vector, rank and parametrization, whatever the
    other arguments are; only [prior] and the dimensions come from the
    arguments, and the prior of the copied prediction is not carried over. *)
Theorem Predict_init_copy f_ Df_ pids_ yids_ pdim_ ydim_ p0_ rank_ ptype_
    prior_ (pred : Predict) :
  Predict_wf pred ->
  Predict_init f_ Df_ pids_ yids_ pdim_ ydim_ p0_ rank_ ptype_ prior_
    (Some pred)
  = Ok {| _f := _f pred; _Df := _Df pred; pids := pids pred;
          yids := yids pred;
          pdim := default (length (pids pred)) pdim_;
          ydim := default (length (yids pred)) ydim_;
          p0 := p0 pred; _p0 := _p0 pred; rank := rank pred;
          ptype := ptype pred; prior := prior_ |}.
Proof.
  intros (Hi & Hv & Hl). unfold Predict_init. simpl.
  rewrite Series_init_Ok by done. simpl.
  destruct (p0 pred) as [v i]; simpl in *; subst.
  by destruct pdim_, ydim_.
Qed.

Lemma Matrix_init_inv (data : list (list R)) (idx cols : list string)
    (m : Matrix) :
  Matrix_init data idx cols = Ok m ->
  m = {| mvalues := data; mindex := idx; mcolumns := cols |} /\
  length data = length idx /\
  Forall (fun row => length row = length cols) data.
Proof.
  unfold Matrix_init. case_decide as Hs; [|discriminate].
  intros [= <-]. by destruct Hs.
Qed.

(** ** More on concatenation *)

Lemma concatenate_rows_same_width (JA JB : list (list R)) (n : nat) :
  Forall (fun row => length row = n) JA ->
  Forall (fun row => length row = n) JB ->
  np.concatenate_rows JA JB = Ok (JA ++ JB).
Proof.
  intros HA HB. unfold np.concatenate_rows.
  destruct JA as [|ra JA], JB as [|rb JB]; try done.
  apply Forall_cons_1 in HA as [Ha _]. apply Forall_cons_1 in HB as [Hb _].
  rewrite decide_True by congruence. done.
Qed.

Lemma add_call (A B AB : Predict) (p : option (list R)) (sa sb : Series) :
  Predict_wf A -> Predict_wf B ->
  __add__ A B = Ok AB ->
  __call__ A p = Ok sa -> __call__ B p = Ok sb ->
  __call__ AB p = Ok (Series_append sa sb).
Proof.
  intros HA HB Hadd.
  assert (Hpids : pids A = pids B).
  { destruct (decide (pids A = pids B)) as [|Hne]; [done|].
    rewrite (add_pids_differ A B Hne) in Hadd. discriminate. }
  assert (H_p0 : _p0 A = _p0 B).
  { destruct (decide (_p0 A = _p0 B)) as [|Hne]; [done|].
    rewrite (add_p0_differ A B HA HB Hpids Hne) in Hadd. discriminate. }
  destruct (add_Ok A B HA HB Hpids H_p0)
    as (AB' & Hadd' & Hyids & _ & Hp0AB & _ & Hf & _).
  assert (AB' = AB) as -> by congruence.
  assert (Hp0 : values (p0 A) = values (p0 B)).
  { destruct HA as (_ & -> & _), HB as (_ & -> & _). done. }
  unfold __call__, f. rewrite Hp0AB, Hf, Hyids, <- Hp0.
  intros Ha Hb. inv_bind Ha. inv_bind Hb.
  rewrite Ha0, Ha1. simpl.
  apply Series_init_inv in Ha as [-> Hla].
  apply Series_init_inv in Hb as [-> Hlb].
  unfold np.concatenate. rewrite Series_init_Ok.
  - reflexivity.
  - rewrite !length_app. congruence.
Qed.

(** X5: the Jacobian of a concatenation is the Jacobian of the first
    prediction on top of that of the second, when both have at least one
    row and the same number of columns; the labeled Jacobian stacks the row
    labels.  When the first rows of the two Jacobians differ in length the
    call raises. *)
Theorem add_concatenates_jacobians (A B : Predict) :
  Predict_wf A -> Predict_wf B ->
  pids A = pids B -> p0 A = p0 B ->
  exists AB,
    __add__ A B = Ok AB /\
    (forall p JA JB n,
        _Df A p = Ok JA -> _Df B p = Ok JB ->
        JA <> [] -> JB <> [] ->
        Forall (fun row => length row = n) JA ->
        Forall (fun row => length row = n) JB ->
        _Df AB p = Ok (JA ++ JB)) /\
    (forall p ma mb,
        Df A p = Ok ma -> Df B p = Ok mb ->
        mvalues ma <> [] -> mvalues mb <> [] ->
        Df AB p = Ok {| mvalues := mvalues ma ++ mvalues mb;
                        mindex := mindex ma ++ mindex mb;
                        mcolumns := mcolumns ma |}) /\
    (forall p ra JA rb JB,
        _Df A p = Ok (ra :: JA) -> _Df B p = Ok (rb :: JB) ->
        length ra <> length rb ->
        raises (_Df AB p)).
Proof.
  intros HA HB Hpids Hp0.
  assert (H_p0 : _p0 A = _p0 B).
  { destruct HA as (_ & <- & _), HB as (_ & <- & _). by rewrite Hp0. }
  destruct (add_Ok A B HA HB Hpids H_p0)
    as (AB & Hadd & Hyids & HpidsAB & Hp0AB & _ & _ & HDf).
  exists AB. split; [done|]. split; [|split].
  - intros p JA JB n Ha Hb _ _ HJA HJB. rewrite HDf, Ha, Hb. simpl.
    by apply (concatenate_rows_same_width JA JB n).
  - intros p ma mb. unfold Df. rewrite Hp0AB, <- Hp0, HDf, Hyids, HpidsAB.
    intros Ha Hb _ _. inv_bind Ha. inv_bind Hb. rewrite Ha0, Ha1. simpl.
    apply Matrix_init_inv in Ha as (-> & HrA & HcA).
    apply Matrix_init_inv in Hb as (-> & HrB & HcB).
    simpl. rewrite <- Hpids in HcB.
    rewrite (concatenate_rows_same_width a a0 (length (pids A))) by done.
    simpl. unfold Matrix_init. rewrite decide_True; [done|]. split.
    + rewrite !length_app. congruence.
    + by apply Forall_app.
  - intros p ra JA rb JB Ha Hb Hne. rewrite HDf, Ha, Hb. simpl.
    rewrite decide_False by done. by eexists.
Qed.

Lemma add_yids (A B AB : Predict) :
  __add__ A B = Ok AB -> yids AB = yids A ++ yids B.
Proof.
  unfold __add__, Predict_init. intros H. inv_bind H. by injection H as <-.
Qed.

(** X6: what [__add__] puts into the combined prediction: the identifiers,
    default vector and parametrization of the first operand, the output
    identifiers of both, dimensions counted from the identifiers, and
    neither a rank nor a prior. *)
Theorem add_metadata (A B AB : Predict) :
  __add__ A B = Ok AB ->
  pids AB = pids A /\ yids AB = yids A ++ yids B /\
  pdim AB = length (pids A) /\
  ydim AB = (length (yids A) + length (yids B))%nat /\
  _p0 AB = values (p0 A) /\ ptype AB = ptype A /\
  rank AB = None /\ prior AB = None /\ Predict_wf AB.
Proof.
  intros H. pose proof (add_wf A B AB H) as Hwf. revert H.
  unfold __add__, Predict_init. intros H. inv_bind H.
  injection H as <-. simpl. by rewrite length_app.
Qed.

Lemma add_asserts_Ok_iff (A B : Predict) :
  Predict_wf A -> Predict_wf B ->
  add_asserts A B = Ok tt <-> pids A = pids B /\ _p0 A = _p0 B.
Proof.
  intros (HiA & HvA & HlA) (HiB & HvB & HlB). unfold add_asserts.
  destruct (decide (pids A = pids B)) as [Hpids|Hpids].
  - rewrite bool_decide_eq_true_2 by done. simpl.
    unfold Series_eq. rewrite decide_True by (split; congruence). simpl.
    destruct (all _) eqn:Hall; simpl.
    + apply all_eq_iff in Hall; [|congruence]. split; [|done].
      intros _. split; [done|congruence].
    + split; [discriminate|]. intros [_ H0]. exfalso.
      assert (Hall' : all (zip_with (fun x y => bool_decide (x = y))
                             (values (p0 A)) (values (p0 B))) = true)
        by (apply all_eq_iff; congruence).
      congruence.
  - rewrite bool_decide_eq_false_2 by done. simpl.
    split; [discriminate|]. by intros [? _].
Qed.

Lemma add_asserts_unit (A B : Predict) (u : unit) :
  add_asserts A B = Ok u -> add_asserts A B = Ok tt.
Proof. by destruct u. Qed.

Lemma overlap_iff (a b : list string) :
  (0 < size ((list_to_set a : gset string) ∩ list_to_set b))%nat
  <-> exists y, y ∈ a /\ y ∈ b.
Proof.
  split.
  - intros Hsize. apply size_pos_elem_of in Hsize as [y Hy].
    exists y. by rewrite elem_of_intersection, !elem_of_list_to_set in Hy.
  - intros [y [Ha Hb]].
    assert (Hne : size ((list_to_set a : gset string) ∩ list_to_set b)
                  <> 0%nat); [|lia].
    apply size_non_empty_iff. intros Hempty.
    apply (not_elem_of_empty (C:=gset string) y). rewrite <- Hempty.
    by rewrite elem_of_intersection, !elem_of_list_to_set.
Qed.

Lemma add_warnings_iff (A B : Predict) :
  Predict_wf A -> Predict_wf B ->
  add_warnings A B = ["The two preds have overlapping yids."]
  <-> pids A = pids B /\ _p0 A = _p0 B /\
      exists y, y ∈ yids A /\ y ∈ yids B.
Proof.
  intros HA HB. unfold add_warnings.
  destruct (add_asserts A B) as [u|e] eqn:Hasserts.
  - apply add_asserts_unit, (add_asserts_Ok_iff A B HA HB) in Hasserts.
    destruct Hasserts as [Hpids Hp0].
    case_decide as Hsize; rewrite overlap_iff in Hsize.
    + split; [by intros _|done].
    + split; [done|]. by intros (_ & _ & Hy).
  - split; [done|]. intros (Hpids & Hp0 & _). exfalso.
    assert (Hok : add_asserts A B = Ok tt)
      by (by apply (add_asserts_Ok_iff A B HA HB)).
    congruence.
Qed.

(** X7: a call of [__add__] logs the warning exactly when both assertions
    pass (same parameter identifiers, same default vector) and the two
    predictions share an output identifier; nothing else is logged, and
    the warning does not stop the call, which returns the combined
    prediction. *)
Theorem add_warns_iff_overlap (A B : Predict) :
  Predict_wf A -> Predict_wf B ->
  (add_warnings A B = ["The two preds have overlapping yids."]
   <-> pids A = pids B /\ _p0 A = _p0 B /\
       exists y, y ∈ yids A /\ y ∈ yids B) /\
  (add_warnings A B = ["The two preds have overlapping yids."] \/
   add_warnings A B = []) /\
  (add_warnings A B <> [] -> exists AB, __add__ A B = Ok AB).
Proof.
  intros HA HB. split; [by apply add_warnings_iff|]. split.
  - unfold add_warnings. destruct (add_asserts A B); [|by right].
    case_decide; [by left|by right].
  - intros Hlog.
    assert (Hw : add_warnings A B = ["The two preds have overlapping yids."]).
    { revert Hlog. unfold add_warnings.
      destruct (add_asserts A B); [|done]. by case_decide. }
    apply (add_warnings_iff A B HA HB) in Hw as (Hpids & Hp0 & _).
    destruct (add_Ok A B HA HB Hpids Hp0) as (AB & HAB & _). eauto.
Qed.

Example add_warnings_overlap :
  add_warnings pred_id pred_id = ["The two preds have overlapping yids."] /\
  add_warnings pred_id pred_sum = [] /\
  add_warnings pred_id pred_sum' = [].
Proof.
  split; [|split].
  - apply add_warnings_iff; [by repeat split..|].
    repeat split. exists "ya". split; apply list_elem_of_here.
  - destruct (add_warnings pred_id pred_sum) eqn:Hw; [done|]. exfalso.
    assert (Hlog : add_warnings pred_id pred_sum
                   = ["The two preds have overlapping yids."]).
    { revert Hw. unfold add_warnings.
      destruct (add_asserts _ _); [|done]. by case_decide. }
    apply add_warnings_iff in Hlog as (_ & _ & y & Hy1 & Hy2);
      [|by repeat split..].
    apply list_elem_of_In in Hy1. apply list_elem_of_In in Hy2.
    simpl in Hy1, Hy2.
    destruct Hy1 as [<-|[<-|[]]], Hy2 as [Hy2|[]]; discriminate.
  - destruct (add_warnings pred_id pred_sum') eqn:Hw; [done|]. exfalso.
    assert (Hlog : add_warnings pred_id pred_sum'
                   = ["The two preds have overlapping yids."]).
    { revert Hw. unfold add_warnings.
      destruct (add_asserts _ _); [|done]. by case_decide. }
    apply add_warnings_iff in Hlog as (_ & Hp0 & _); [|by repeat split..].
    simpl in Hp0. injection Hp0 as Hp0. lra.
Qed.

Lemma bind_assoc_append (ra rb rc : result (list R)) :
  (yab ← (ya ← ra; yb ← rb; mret (np.concatenate ya yb));
   yc ← rc; mret (np.concatenate yab yc))
  = (ya ← ra;
     ybc ← (yb ← rb; yc ← rc; mret (np.concatenate yb yc));
     mret (np.concatenate ya ybc)).
Proof.
  destruct ra as [ya|e], rb as [yb|e'], rc as [yc|e'']; simpl; try done.
  unfold np.concatenate. by rewrite app_assoc.
Qed.

(** X8: concatenation is associative: [(A + B) + C] and [A + (B + C)] are
    both built and have the same identifiers, default vector and outputs,
    and raise the same error where an operand raises. *)
Theorem add_assoc (A B C : Predict) :
  Predict_wf A -> Predict_wf B -> Predict_wf C ->
  pids A = pids B -> pids B = pids C -> p0 A = p0 B -> p0 B = p0 C ->
  exists AB BC L Rt,
    __add__ A B = Ok AB /\ __add__ B C = Ok BC /\
    __add__ AB C = Ok L /\ __add__ A BC = Ok Rt /\
    pids L = pids Rt /\ yids L = yids Rt /\ p0 L = p0 Rt /\
    (forall p, _f L p = _f Rt p) /\
    (forall p, __call__ L p = __call__ Rt p).
Proof.
  intros HA HB HC Hab Hbc Hp0ab Hp0bc.
  assert (Hraw : forall X Y, Predict_wf X -> Predict_wf Y -> p0 X = p0 Y ->
                             _p0 X = _p0 Y).
  { intros X Y (_ & <- & _) (_ & <- & _) H. by rewrite H. }
  destruct (add_Ok A B HA HB Hab (Hraw A B HA HB Hp0ab))
    as (AB & HAB & HyAB & HpAB & H0AB & _ & HfAB & _).
  destruct (add_Ok B C HB HC Hbc (Hraw B C HB HC Hp0bc))
    as (BC & HBC & HyBC & HpBC & H0BC & _ & HfBC & _).
  pose proof (add_wf A B AB HAB) as HwAB.
  pose proof (add_wf B C BC HBC) as HwBC.
  assert (H1 : pids AB = pids C) by congruence.
  assert (H2 : p0 AB = p0 C) by congruence.
  assert (H3 : pids A = pids BC) by congruence.
  assert (H4 : p0 A = p0 BC) by congruence.
  destruct (add_Ok AB C HwAB HC H1 (Hraw AB C HwAB HC H2))
    as (L & HL & HyL & HpL & H0L & _ & HfL & _).
  destruct (add_Ok A BC HA HwBC H3 (Hraw A BC HA HwBC H4))
    as (Rt & HR & HyR & HpR & H0R & _ & HfR & _).
  exists AB, BC, L, Rt. repeat (split; [done|]).
  assert (Hf : forall p, _f L p = _f Rt p).
  { intros p. rewrite HfL, HfR, HfAB, HfBC. apply bind_assoc_append. }
  split; [congruence|]. split.
  { rewrite HyL, HyR, HyAB, HyBC. by rewrite app_assoc. }
  split; [congruence|]. split; [done|].
  intros p. unfold __call__, f.
  rewrite H0L, H0R, H0AB, !Hf, HyL, HyR, HyAB, HyBC. by rewrite app_assoc.
Qed.

(** ** More on log-parameters *)

(** X9: what [get_in_logp] puts into the log-space prediction: parameter
    identifiers prefixed by ['log_'], the same output identifiers, the
    logarithm of the default vector, parametrization ['logp'], dimensions
    counted from the identifiers, and neither a rank nor a prior. *)
Theorem get_in_logp_metadata (self logpred : Predict) :
  get_in_logp self = Ok logpred ->
  pids logpred = map (fun pid => "log_" +:+ pid) (pids self) /\
  yids logpred = yids self /\
  pdim logpred = length (pids self) /\ ydim logpred = length (yids self) /\
  p0 logpred = {| values := np.log (_p0 self); index := pids logpred |} /\
  _p0 logpred = np.log (_p0 self) /\
  ptype logpred = "logp" /\ rank logpred = None /\ prior logpred = None.
Proof.
  unfold get_in_logp, Predict_init. intros H. inv_bind H.
  injection H as <-. simpl.
  repeat match goal with
         | Hs : Series_init _ _ = Ok _ |- _ =>
             apply Series_init_inv in Hs as [-> _]
         end.
  simpl. by rewrite length_map.
Qed.


Lemma scale_columns_app (JA JB : list (list R)) (v : list R) :
  scale_columns (JA ++ JB) v = scale_columns JA v ++ scale_columns JB v.
Proof. unfold scale_columns. apply map_app. Qed.

Lemma scale_columns_width (J : list (list R)) (v : list R) :
  Forall (fun row => length row = length v) J ->
  Forall (fun row => length row = length v) (scale_columns J v).
Proof.
  intros H. unfold scale_columns. rewrite Forall_fmap.
  eapply Forall_impl; [exact H|]. intros row Hrow. simpl in *.
  rewrite length_zip_with. lia.
Qed.

(** X11: reparametrizing and concatenating commute for predictions with
    strictly positive default parameters: the log-space version of [A + B]
    and the sum of the log-space versions of [A] and [B] are both built,
    with the same identifiers, default vector, parametrization and outputs,
    and the same Jacobian wherever the two Jacobians have at least one row
    and one column per parameter. *)
Theorem get_in_logp_add_commute (A B : Predict) :
  Predict_wf A -> Predict_wf B ->
  pids A = pids B -> p0 A = p0 B -> ptype A = "" -> ptype B = "" ->
  Forall (fun x => 0 < x) (_p0 A) ->
  exists AB L1 LA LB L2,
    __add__ A B = Ok AB /\ get_in_logp AB = Ok L1 /\
    get_in_logp A = Ok LA /\ get_in_logp B = Ok LB /\
    __add__ LA LB = Ok L2 /\
    pids L1 = pids L2 /\ yids L1 = yids L2 /\ p0 L1 = p0 L2 /\
    ptype L1 = ptype L2 /\
    (forall logp, _f L1 logp = _f L2 logp) /\
    (forall logp, __call__ L1 logp = __call__ L2 logp) /\
    (forall logp JA JB,
        _Df A (np.exp logp) = Ok JA -> _Df B (np.exp logp) = Ok JB ->
        JA <> [] -> JB <> [] ->
        Forall (fun row => length row = length logp) JA ->
        Forall (fun row => length row = length logp) JB ->
        _Df L1 logp = _Df L2 logp).
Proof.
  intros HA HB Hpids Hp0 HbA HbB Hpos.
  assert (H_p0 : _p0 A = _p0 B).
  { destruct HA as (_ & <- & _), HB as (_ & <- & _). by rewrite Hp0. }
  destruct (add_Ok A B HA HB Hpids H_p0)
    as (AB & HAB & HyAB & HpAB & H0AB & HtAB & HfAB & HDAB).
  pose proof (add_wf A B AB HAB) as HwAB.
  destruct (get_in_logp_Ok AB HwAB) as (L1 & HL1 & HyL1 & HpL1 & H0L1 & HfL1 & HDL1);
    [congruence|].
  destruct (get_in_logp_Ok A HA HbA) as (LA & HLA & HyLA & HpLA & H0LA & HfLA & HDLA).
  destruct (get_in_logp_Ok B HB HbB) as (LB & HLB & HyLB & HpLB & H0LB & HfLB & HDLB).
  pose proof (get_in_logp_wf A LA HLA) as HwLA.
  pose proof (get_in_logp_wf B LB HLB) as HwLB.
  pose proof (get_in_logp_wf AB L1 HL1) as HwL1.
  assert (HpL : pids LA = pids LB) by congruence.
  assert (H0L : _p0 LA = _p0 LB) by congruence.
  destruct (add_Ok LA LB HwLA HwLB HpL H0L)
    as (L2 & HL2 & HyL2 & HpL2 & H0L2 & HtL2 & HfL2 & HDL2).
  exists AB, L1, LA, LB, L2. repeat (split; [done|]).
  assert (Hp : pids L1 = pids L2) by congruence.
  assert (Hy : yids L1 = yids L2) by congruence.
  assert (Hf : forall logp, _f L1 logp = _f L2 logp).
  { intros logp. by rewrite HfL1, HfAB, HfL2, HfLA, HfLB. }
  assert (H0 : p0 L1 = p0 L2).
  { rewrite H0L2. destruct HwL1 as (Hi1 & Hv1 & _), HwLA as (Hi2 & Hv2 & _).
    destruct (p0 L1) as [v1 i1], (p0 LA) as [v2 i2]. simpl in *. subst.
    f_equal; [|congruence].
    rewrite H0L1, H0LA. f_equal.
    destruct HwAB as (_ & <- & _), HA as (_ & <- & _). by rewrite H0AB. }
  split; [done|]. split; [done|]. split; [done|]. split.
  { rewrite (get_in_logp_ptype AB L1 HL1), HtL2.
    by rewrite (get_in_logp_ptype A LA HLA). }
  split; [done|]. split.
  { intros logp. unfold __call__, f. by rewrite H0, Hy, !Hf. }
  intros logp JA JB HJA HJB _ _ HsA HsB.
  assert (Hlen : length (np.exp logp) = length logp)
    by (unfold np.exp; by rewrite length_map).
  rewrite HDL1, HDAB, HJA, HJB. simpl.
  rewrite (concatenate_rows_same_width JA JB (length logp)) by done. simpl.
  rewrite multiply_rows_scale by (rewrite Hlen; by apply Forall_app).
  rewrite HDL2, HDLA, HDLB, HJA, HJB. simpl.
  rewrite !multiply_rows_scale by (by rewrite Hlen). simpl.
  rewrite (concatenate_rows_same_width _ _ (length (np.exp logp)))
    by (apply scale_columns_width; by rewrite Hlen).
  by rewrite scale_columns_app.
Qed.

(** ** More on error bars *)

Lemma get_sigma_returns_iff_f_returns_aux (self : Predict)
    (p : option (list R)) (errormodel : string) (constant_sigma cv : R) :
  errormodel ∈ ["constant"; "cv"; "mixed"] ->
  forall y, f self p = Ok y ->
     exists sigma,
       get_sigma self p errormodel constant_sigma cv = Ok sigma /\
       index sigma = yids self /\
       length (values sigma) = length (values y).
Proof.
  intros Hem y Hy. destruct (f_Ok_inv self p y Hy) as [_ Hlen].
  rewrite !elem_of_cons in Hem.
  destruct Hem as [->|[->|[->|Hem]]]; [| | |by apply elem_of_nil in Hem].
  - rewrite (get_sigma_constant self p constant_sigma cv y Hy).
    eexists. split; [done|]. simpl. by rewrite length_replicate.
  - rewrite (get_sigma_cv self p constant_sigma cv y Hy).
    eexists. split; [done|]. simpl. by rewrite length_map.
  - rewrite (get_sigma_mixed self p constant_sigma cv y Hy).
    eexists. split; [done|]. simpl. by rewrite length_map.
Qed.

(** X12: for the three known error models [get_sigma] returns exactly when
    the prediction evaluates, with one error bar per output, labeled by
    the output identifiers; an error of the prediction is passed on
    unchanged, whatever the model. *)
Theorem get_sigma_returns_iff_f_returns (self : Predict)
    (p : option (list R)) (errormodel : string) (constant_sigma cv : R) :
  errormodel ∈ ["constant"; "cv"; "mixed"] ->
  (forall e, f self p = Err e ->
             get_sigma self p errormodel constant_sigma cv = Err e) /\
  (forall y, f self p = Ok y ->
     exists sigma,
       get_sigma self p errormodel constant_sigma cv = Ok sigma /\
       index sigma = yids self /\
       length (values sigma) = length (values y)).
Proof.
  intros Hem. split; [intros e; apply get_sigma_propagates|].
  by apply get_sigma_returns_iff_f_returns_aux.
Qed.

(** X13: under the ['mixed'] model no error bar is below the constant one,
    and none is below the output times [cv]. *)
Theorem get_sigma_mixed_floor (self : Predict) (p : option (list R))
    (constant_sigma cv : R) (y sigma : Series) :
  f self p = Ok y ->
  get_sigma self p "mixed" constant_sigma cv = Ok sigma ->
  Forall (fun s => constant_sigma <= s) (values sigma) /\
  Forall2 (fun v s => v * cv <= s) (values y) (values sigma).
Proof.
  intros Hy. rewrite (get_sigma_mixed self p constant_sigma cv y Hy).
  intros [= <-]. simpl. split.
  - apply Forall_forall. intros s Hs. apply list_elem_of_In in Hs.
    apply in_map_iff in Hs as (v & <- & _). apply Rmax_r.
  - induction (values y) as [|v vs IH]; simpl; constructor; [|done].
    apply Rmax_l.
Qed.

(** X14: under the ['constant'] model every error bar is the constant,
    independently of the parameter vector and of the outputs. *)
Theorem get_sigma_constant_ignores_outputs (self : Predict)
    (p q : option (list R)) (constant_sigma cv cv' : R) (y y' : Series) :
  f self p = Ok y -> f self q = Ok y' ->
  get_sigma self p "constant" constant_sigma cv
    = get_sigma self q "constant" constant_sigma cv' /\
  get_sigma self p "constant" constant_sigma cv
    = Ok {| values := replicate (length (yids self)) constant_sigma;
            index := yids self |}.
Proof.
  intros Hp Hq.
  rewrite (get_sigma_constant self p constant_sigma cv y Hp).
  by rewrite (get_sigma_constant self q constant_sigma cv' y' Hq).
Qed.

(** X15: the error bars of a concatenation are the error bars of the first
    prediction followed by those of the second, under every error model. *)
Theorem get_sigma_add (A B AB : Predict) (p : option (list R))
    (errormodel : string) (constant_sigma cv : R) (sa sb : Series) :
  Predict_wf A -> Predict_wf B ->
  __add__ A B = Ok AB ->
  get_sigma A p errormodel constant_sigma cv = Ok sa ->
  get_sigma B p errormodel constant_sigma cv = Ok sb ->
  get_sigma AB p errormodel constant_sigma cv = Ok (Series_append sa sb).
Proof.
  intros HA HB Hadd Hsa Hsb.
  destruct (f A p) as [ya|e] eqn:Hya;
    [|by rewrite (get_sigma_propagates A p _ _ _ e Hya) in Hsa].
  destruct (f B p) as [yb|e] eqn:Hyb;
    [|by rewrite (get_sigma_propagates B p _ _ _ e Hyb) in Hsb].
  pose proof (add_call A B AB p ya yb HA HB Hadd Hya Hyb) as Hyab.
  unfold __call__ in Hyab.
  pose proof (add_yids A B AB Hadd) as Hyids.
  destruct (decide (errormodel ∈ ["constant"; "cv"; "mixed"])) as [Hem|Hem].
  - rewrite !elem_of_cons in Hem.
    destruct Hem as [->|[->|[->|Hem]]]; [| | |by apply elem_of_nil in Hem].
    + rewrite (get_sigma_constant _ _ _ _ _ Hya) in Hsa.
      rewrite (get_sigma_constant _ _ _ _ _ Hyb) in Hsb.
      rewrite (get_sigma_constant _ _ _ _ _ Hyab).
      injection Hsa as <-. injection Hsb as <-.
      unfold Series_append. simpl.
      by rewrite Hyids, length_app, replicate_add.
    + rewrite (get_sigma_cv _ _ _ _ _ Hya) in Hsa.
      rewrite (get_sigma_cv _ _ _ _ _ Hyb) in Hsb.
      rewrite (get_sigma_cv _ _ _ _ _ Hyab).
      injection Hsa as <-. injection Hsb as <-.
      unfold Series_append. simpl. by rewrite Hyids, map_app.
    + rewrite (get_sigma_mixed _ _ _ _ _ Hya) in Hsa.
      rewrite (get_sigma_mixed _ _ _ _ _ Hyb) in Hsb.
      rewrite (get_sigma_mixed _ _ _ _ _ Hyab).
      injection Hsa as <-. injection Hsb as <-.
      unfold Series_append. simpl. by rewrite Hyids, map_app.
  - exfalso. rewrite !elem_of_cons in Hem.
    revert Hsa. unfold get_sigma. rewrite Hya. simpl.
    rewrite !bool_decide_eq_false_2 by (intros ->; apply Hem; auto).
    simpl. discriminate.
Qed.

(** ** The data table *)

Lemma transpose_pair (a b : list R) :
  length a = length b ->
  np.transpose [a; b] = Ok (zip_with (fun x y => [x; y]) a b).
Proof.
  intros Hlen. unfold np.transpose. simpl.
  rewrite !bool_decide_eq_true_2 by done. simpl. f_equal.
  revert b Hlen. induction a as [|x a IH]; intros [|y b] Hlen;
    simpl in *; try discriminate; [done|].
  f_equal. rewrite <- seq_shift, map_map. apply IH. congruence.
Qed.

(** X16: [get_dat] returns one row per output, holding the output and its
    error bar, labeled by the output identifiers and the columns ['Y'] and
    ['sigma']; it raises whenever the prediction or [get_sigma] raises. *)
Theorem get_dat_rows (self : Predict) (p : option (list R))
    (errormodel : string) (constant_sigma cv : R) :
  (forall y sigma,
      f self p = Ok y ->
      get_sigma self p errormodel constant_sigma cv = Ok sigma ->
      get_dat self p errormodel constant_sigma cv
        = Ok {| mvalues := zip_with (fun v s => [v; s])
                             (values y) (values sigma);
                mindex := yids self; mcolumns := ["Y"; "sigma"] |}) /\
  (forall e, f self p = Err e ->
             get_dat self p errormodel constant_sigma cv = Err e) /\
  (forall e, get_sigma self p errormodel constant_sigma cv = Err e ->
             get_dat self p errormodel constant_sigma cv = Err e).
Proof.
  split; [|split].
  - intros y sigma Hy Hs. unfold get_dat. rewrite Hy, Hs, !bind_Ok.
    destruct (f_Ok_inv self p y Hy) as [_ Hly].
    assert (Hls : length (values sigma) = length (values y)).
    { destruct (decide (errormodel ∈ ["constant"; "cv"; "mixed"]))
        as [Hem|Hem].
      - destruct (get_sigma_returns_iff_f_returns_aux self p errormodel
                    constant_sigma cv Hem y Hy) as (s' & Hs' & _ & Hlen).
        congruence.
      - exfalso. rewrite !elem_of_cons in Hem.
        revert Hs. unfold get_sigma. rewrite Hy. simpl.
        rewrite !bool_decide_eq_false_2 by (intros ->; apply Hem; auto).
        simpl. discriminate. }
    rewrite transpose_pair by done. rewrite bind_Ok.
    unfold DataFrame_init, Matrix_init. rewrite decide_True; [done|].
    split.
    + rewrite length_zip_with. lia.
    + apply Forall_forall. intros row Hrow.
      apply list_elem_of_In in Hrow.
      clear -Hrow. revert Hrow. generalize (values sigma).
      induction (values y) as [|v vs IH]; intros [|s ss]; simpl; try done.
      intros [<-|H]; [done|]. by apply (IH ss).
  - intros e He. unfold get_dat. by rewrite He.
  - intros e He. unfold get_dat.
    destruct (f self p) as [y|e'] eqn:Hy; [by rewrite bind_Ok, He|].
    rewrite (get_sigma_propagates self p _ _ _ e' Hy) in He.
    simpl. congruence.
Qed.

(** ** More on finite differences *)

Lemma affine_map_Ok (M : list (list R)) (b p q : list R) :
  Forall (fun row => length row = length p) M -> length q = length p ->
  length b = length M ->
  affine_map M b q = Ok (zip_with Rplus (map (fun row => dot row q) M) b).
Proof.
  intros HM Hq Hb. unfold affine_map.
  rewrite (linear_map_Ok M p q HM Hq). simpl.
  unfold np.add. by rewrite broadcast_same_length by (by rewrite length_map).
Qed.

Lemma zip_with_minus_shift (a a' b : list R) :
  length a = length b -> length a' = length b ->
  zip_with Rminus (zip_with Rplus a b) (zip_with Rplus a' b)
    = zip_with Rminus a a'.
Proof.
  revert a' b. induction a as [|x a IH]; intros [|x' a'] [|y b] H1 H2;
    simpl in *; try discriminate; [done|].
  f_equal; [lra|]. apply IH; congruence.
Qed.

Lemma fd_column_affine (M : list (list R)) (b : list R) (r : R)
    (p : list R) (i : nat) (p_i : R) :
  Rmax (p_i * r) r <> 0 -> (i < length p)%nat ->
  Forall (fun row => length row = length p) M ->
  length b = length M ->
  (let deltap_i := Rmax (p_i * r) r in
   let deltap := <[i := deltap_i]> (np.zeros (length p)) in
   p_plus ← np.add p deltap;
   p_minus ← np.subtract p deltap;
   y_plus ← affine_map M b p_plus;
   y_minus ← affine_map M b p_minus;
   d ← np.subtract y_plus y_minus;
   mret (map (fun y => y / 2 / deltap_i) d))
  = Ok (map (fun row => nth i row 0) M).
Proof.
  intros Hdelta Hi HM Hb. cbv zeta.
  set (delta := Rmax (p_i * r) r) in *.
  set (deltap := <[i := delta]> (np.zeros (length p))).
  assert (Hlen : length p = length deltap).
  { unfold deltap, np.zeros. by rewrite length_insert, length_replicate. }
  unfold np.add, np.subtract.
  rewrite !(broadcast_same_length _ p deltap Hlen). simpl.
  rewrite (affine_map_Ok M b p)
    by (done || rewrite length_zip_with; lia). simpl.
  rewrite (affine_map_Ok M b p)
    by (done || rewrite length_zip_with; lia). simpl.
  rewrite broadcast_same_length
    by (by rewrite !length_zip_with, !length_map).
  simpl. f_equal.
  rewrite zip_with_minus_shift by (by rewrite length_map).
  rewrite zip_with_fmap_l, zip_with_fmap_r, zip_with_diag.
  rewrite map_map. apply map_ext_in. intros row Hrow.
  rewrite dot_central_difference by done.
  unfold deltap, np.zeros. rewrite dot_unit by done.
  by field.
Qed.

Lemma get_Df_fd_affine (M : list (list R)) (b : list R) (rdeltap : option R)
    (p : list R) :
  Forall (fun p_i => Rmax (p_i * default RDELTAP rdeltap)
                          (default RDELTAP rdeltap) <> 0) p ->
  p <> [] ->
  Forall (fun row => length row = length p) M ->
  length b = length M ->
  get_Df_fd (affine_map M b) rdeltap p = Ok M.
Proof.
  intros Hr Hp HM Hb. unfold get_Df_fd.
  replace (match rdeltap with Some r => r | None => RDELTAP end)
    with (default RDELTAP rdeltap) by (by destruct rdeltap).
  set (r := default RDELTAP rdeltap) in *.
  rewrite (mapM_Ok_ext _ (fun x => map (fun row => nth x.1 row 0) M)).
  2:{ intros [i p_i] Hin. pose proof (enumerate_elem _ _ _ Hin) as Hi.
      apply fd_column_affine; try done.
      rewrite Forall_forall in Hr. apply Hr.
      unfold enumerate in Hin. by apply elem_of_zip_r in Hin. }
  simpl.
  rewrite <- (map_map fst (fun i => map (fun row => nth i row 0) M)).
  change (map fst (enumerate p)) with ((enumerate p).*1).
  rewrite enumerate_fst.
  apply transpose_of_columns; [|done].
  destruct p; [done|simpl; lia].
Qed.

Lemma fd_column_linear (M : list (list R)) (r : R) (p : list R) (i : nat)
    (p_i : R) :
  Rmax (p_i * r) r <> 0 -> (i < length p)%nat ->
  Forall (fun row => length row = length p) M ->
  (let deltap_i := Rmax (p_i * r) r in
   let deltap := <[i := deltap_i]> (np.zeros (length p)) in
   p_plus ← np.add p deltap;
   p_minus ← np.subtract p deltap;
   y_plus ← linear_map M p_plus;
   y_minus ← linear_map M p_minus;
   d ← np.subtract y_plus y_minus;
   mret (map (fun y => y / 2 / deltap_i) d))
  = Ok (map (fun row => nth i row 0) M).
Proof.
  intros Hdelta Hi HM. cbv zeta.
  set (delta := Rmax (p_i * r) r) in *.
  set (deltap := <[i := delta]> (np.zeros (length p))).
  assert (Hlen : length p = length deltap).
  { unfold deltap, np.zeros. by rewrite length_insert, length_replicate. }
  unfold np.add, np.subtract.
  rewrite !(broadcast_same_length _ p deltap Hlen). simpl.
  rewrite (linear_map_Ok M p)
    by (done || rewrite length_zip_with; lia). simpl.
  rewrite (linear_map_Ok M p)
    by (done || rewrite length_zip_with; lia). simpl.
  rewrite broadcast_same_length by (by rewrite !length_map). simpl.
  f_equal. rewrite zip_with_fmap_l, zip_with_fmap_r, zip_with_diag.
  rewrite map_map. apply map_ext_in. intros row Hrow.
  rewrite dot_central_difference by done.
  unfold deltap, np.zeros. rewrite dot_unit by done.
  by field.
Qed.

Lemma get_Df_fd_linear (M : list (list R)) (rdeltap : option R)
    (p : list R) :
  Forall (fun p_i => Rmax (p_i * default RDELTAP rdeltap)
                          (default RDELTAP rdeltap) <> 0) p ->
  p <> [] ->
  Forall (fun row => length row = length p) M ->
  get_Df_fd (linear_map M) rdeltap p = Ok M.
Proof.
  intros Hr Hp HM. unfold get_Df_fd.
  replace (match rdeltap with Some r => r | None => RDELTAP end)
    with (default RDELTAP rdeltap) by (by destruct rdeltap).
  set (r := default RDELTAP rdeltap) in *.
  rewrite (mapM_Ok_ext _ (fun x => map (fun row => nth x.1 row 0) M)).
  2:{ intros [i p_i] Hin. pose proof (enumerate_elem _ _ _ Hin) as Hi.
      apply fd_column_linear; try done.
      rewrite Forall_forall in Hr. apply Hr.
      unfold enumerate in Hin. by apply elem_of_zip_r in Hin. }
  simpl.
  rewrite <- (map_map fst (fun i => map (fun row => nth i row 0) M)).
  change (map fst (enumerate p)) with ((enumerate p).*1).
  rewrite enumerate_fst.
  apply transpose_of_columns; [|done].
  destruct p; [done|simpl; lia].
Qed.

Lemma step_positive (r p_i : R) : 0 < r -> Rmax (p_i * r) r <> 0.
Proof. intros Hr. pose proof (Rmax_r (p_i * r) r). lra. Qed.

(** X17: the central difference is exact on every affine function
    [f(p) = M p + b]: for a positive relative step the estimated Jacobian is
    [M], whatever the offset [b] and the point [p]. *)
Theorem get_Df_fd_affine_exact (M : list (list R)) (b : list R)
    (rdeltap : option R) (p : list R) :
  0 < default RDELTAP rdeltap ->
  p <> [] ->
  Forall (fun row => length row = length p) M ->
  length b = length M ->
  get_Df_fd (affine_map M b) rdeltap p = Ok M.
Proof.
  intros Hr Hp HM Hb. apply get_Df_fd_affine; try done.
  apply Forall_forall. intros p_i _. by apply step_positive.
Qed.

(** X18: a negative relative step works as well as long as no parameter is
    negative or zero: the steps are then negative but not zero, and the
    quotient is still exact. *)
Theorem get_Df_fd_affine_negative_step (M : list (list R)) (b : list R)
    (r : R) (p : list R) :
  r < 0 ->
  Forall (fun p_i => 0 < p_i) p ->
  p <> [] ->
  Forall (fun row => length row = length p) M ->
  length b = length M ->
  get_Df_fd (affine_map M b) (Some r) p = Ok M.
Proof.
  intros Hr Hpos Hp HM Hb. apply get_Df_fd_affine; try done.
  eapply Forall_impl; [exact Hpos|]. intros p_i Hp_i. simpl.
  unfold Rmax. destruct (Rle_dec (p_i * r) r); nra.
Qed.

Lemma mapM_Ok_Forall {A B} (fm : A -> result B) (P : B -> Prop)
    (l : list A) :
  (forall x, x ∈ l -> exists y, fm x = Ok y /\ P y) ->
  exists ys, mapM fm l = Ok ys /\ length ys = length l /\ Forall P ys.
Proof.
  induction l as [|x l IH]; intros H; simpl.
  - exists []. by repeat split.
  - destruct (H x) as (y & Hy & HP); [by left|].
    destruct IH as (ys & Hys & Hlen & HPs).
    { intros z Hz. apply H. by right. }
    exists (y :: ys). rewrite Hy. simpl. rewrite Hys. simpl.
    repeat split; [by rewrite Hlen|by constructor].
Qed.

(** X19: the estimated Jacobian has one row per output and one column per
    parameter: if [f] returns [m] values at every point with as many
    coordinates as [p], and [p] is not empty, the estimate is an [m] by
    [len(p)] array, for every relative step. *)
Theorem get_Df_fd_shape (f : raw_f) (rdeltap : option R) (p : list R)
    (m : nat) :
  (forall q, length q = length p -> exists y, f q = Ok y /\ length y = m) ->
  p <> [] ->
  exists jac,
    get_Df_fd f rdeltap p = Ok jac /\
    length jac = m /\
    Forall (fun row => length row = length p) jac.
Proof.
  intros Hf Hp. unfold get_Df_fd.
  set (r := match rdeltap with Some r => r | None => RDELTAP end).
  match goal with
  | |- context [mapM ?fm (enumerate p)] =>
      destruct (mapM_Ok_Forall fm (fun col => length col = m) (enumerate p))
        as (cols & Hcols & Hlen & Hall)
  end.
  { intros [i p_i] Hin.
    set (deltap := <[i := Rmax (p_i * r) r]> (np.zeros (length p))).
    assert (Hd : length p = length deltap).
    { unfold deltap, np.zeros. by rewrite length_insert, length_replicate. }
    unfold np.add, np.subtract.
    rewrite !(broadcast_same_length _ p deltap Hd). simpl.
    destruct (Hf (zip_with Rplus p deltap)) as (yp & Hyp & Hlp);
      [rewrite length_zip_with; lia|].
    destruct (Hf (zip_with Rminus p deltap)) as (ym & Hym & Hlm);
      [rewrite length_zip_with; lia|].
    rewrite Hyp, Hym. simpl.
    rewrite broadcast_same_length by congruence. simpl.
    eexists. split; [done|]. rewrite length_map, length_zip_with. lia. }
  rewrite Hcols. simpl.
  assert (Hn : length cols = length p).
  { rewrite Hlen. unfold enumerate.
    rewrite length_zip_with, length_seq. lia. }
  destruct cols as [|c cols]; [destruct p; done|].
  unfold np.transpose.
  replace (forallb _ _) with true.
  2:{ symmetry. apply forallb_forall. intros row Hrow.
      apply bool_decide_eq_true. rewrite Forall_forall in Hall.
      rewrite (Hall row) by (by apply list_elem_of_In).
      rewrite (Hall c) by left. done. }
  eexists. split; [done|]. unfold np.columns.
  rewrite Forall_forall in Hall. rewrite length_map, length_seq.
  split; [apply Hall; by left|].
  apply Forall_forall. intros row Hrow. apply list_elem_of_In in Hrow.
  apply in_map_iff in Hrow as (k & <- & _). by rewrite length_map.
Qed.

(** X20: an error of [f] is the error of the estimate, except with no
    parameter: then [f] is not evaluated and the empty array is returned. *)
Theorem get_Df_fd_error (f : raw_f) (rdeltap : option R) (e : exn) :
  (forall q, f q = Err e) ->
  get_Df_fd f rdeltap [] = Ok [] /\
  (forall p, p <> [] -> get_Df_fd f rdeltap p = Err e).
Proof.
  intros Hf. split; [done|]. intros [|p_0 p] Hp; [done|].
  unfold get_Df_fd, enumerate.
  set (r := match rdeltap with Some r => r | None => RDELTAP end).
  simpl length. simpl seq. simpl zip.
  change (mapM ?fm ((0%nat, p_0) :: ?l))
    with (y ← fm (0%nat, p_0); k ← mapM fm l; mret (y :: k)).
  cbv beta iota zeta.
  set (deltap := <[0%nat := Rmax (p_0 * r) r]> (np.zeros (S (length p)))).
  assert (Hd : length (p_0 :: p) = length deltap).
  { unfold deltap, np.zeros. by rewrite length_insert, length_replicate. }
  unfold np.add, np.subtract.
  rewrite !(broadcast_same_length _ (p_0 :: p) deltap Hd).
  rewrite !bind_Ok, !Hf. reflexivity.
Qed.

(** X4: a prediction built without a Jacobian from a linear function has
    the matrix of that function as its labeled Jacobian, at every point
    with one coordinate per parameter. *)
Theorem Predict_init_backfills_jacobian (M : list (list R))
    (pids_ yids_ : list string) (p0_ : option (list R)) rank_ ptype_ prior_
    (self : Predict) (p : list R) :
  Predict_init (linear_map M) None (Some pids_) (Some yids_) None None p0_
    rank_ ptype_ prior_ None = Ok self ->
  pids_ <> [] ->
  length M = length yids_ ->
  Forall (fun row => length row = length pids_) M ->
  length p = length pids_ ->
  _Df self p = Ok M /\
  Df self (Some p)
    = Ok {| mvalues := M; mindex := yids_; mcolumns := pids_ |}.
Proof.
  intros Hinit Hpids HM Hrows Hp.
  unfold Predict_init in Hinit. simpl in Hinit. inv_bind Hinit.
  injection Hinit as <-.
  assert (HDf : get_Df_fd (linear_map M) (Some RDELTAP) p = Ok M).
  { apply get_Df_fd_linear; [| |by rewrite Hp].
    - apply Forall_forall. intros p_i _. apply step_positive.
      simpl. unfold RDELTAP. lra.
    - destruct p, pids_; done. }
  unfold Df. simpl. rewrite HDf. split; [done|]. simpl.
  unfold Matrix_init. by rewrite decide_True.
Qed.

(** ** More on predictions from expression strings *)

Lemma str2predict_Ok_inv globals funcstr pids_ uids us c p0_ yids_
    (pred : Predict) :
  str2predict globals funcstr pids_ uids us c p0_ yids_ = Ok pred ->
  exists ycode jaccode,
    _f pred = (fun p => mapM (eval_expr (dict (zip pids_ p)) mathsubs) ycode) /\
    _Df pred = (fun p => mapM (mapM (eval_expr (dict (zip pids_ p)) mathsubs))
                              jaccode) /\
    pids pred = pids_ /\
    yids pred = default ((fun u => "u=" +:+ str_int_list u) <$> us) yids_ /\
    _p0 pred = default (replicate (length pids_) 1) p0_ /\
    ptype pred = "" /\ rank pred = None /\ prior pred = None.
Proof.
  unfold str2predict. intros H. inv_bind H.
  unfold Predict_init in H. simpl in H. inv_bind H. injection H as <-.
  simpl. eexists _, _. repeat split; by destruct yids_ || by destruct p0_.
Qed.

Lemma compile_no_outputs :
  compile_list (remove_quotes (str_list (repr_string <$> []))) = Ok [].
Proof. vm_compute. reflexivity. Qed.

Lemma compile_no_rows :
  compile_list2
    (remove_quotes
       (str_list ((fun row => str_list (repr_string <$> row)) <$> [])))
  = Ok [].
Proof. vm_compute. reflexivity. Qed.

(** X21: on the module's own namespace [str2predict] returns a prediction
    only when there is nothing to substitute ([c] absent, [us] empty), and
    that prediction has no output. *)
Theorem str2predict_returns_only_empty funcstr pids_ uids us c p0_ yids_
    (pred : Predict) :
  str2predict predict_globals funcstr pids_ uids us c p0_ yids_ = Ok pred ->
  c = None /\ us = [] /\
  (forall p, _f pred p = Ok []) /\ (forall p, _Df pred p = Ok []).
Proof.
  intros H.
  assert (Hboth : c = None /\ us = []).
  { destruct c as [c|], us as [|u us]; try done;
      rewrite str2predict_util_unbound in H; try discriminate; auto. }
  destruct Hboth as [-> ->]. split; [done|]. split; [done|].
  revert H. unfold str2predict. rewrite bind_Ok. cbn [mapM]. rewrite !bind_Ok.
  cbv beta.
  rewrite compile_no_outputs, bind_Ok.
  change (mret []) with (Ok (@nil (list string))). rewrite bind_Ok.
  rewrite compile_no_rows, bind_Ok. unfold Predict_init. simpl. intros H. inv_bind H.
  by injection H as <-.
Qed.

Lemma zip_app_surplus {A B} (l : list A) (k extra : list B) :
  (length l <= length k)%nat -> zip l (k ++ extra) = zip l k.
Proof.
  revert k. induction l as [|x l IH]; intros [|y k] Hlen; simpl in *;
    try done; try lia.
  f_equal. apply IH. lia.
Qed.

(** X22: a prediction built from expression strings ignores surplus
    parameter values: values beyond the last parameter identifier change
    neither the outputs nor the Jacobian. *)
Theorem str2predict_ignores_surplus globals funcstr pids_ uids us c p0_ yids_
    (pred : Predict) (p extra : list R) :
  str2predict globals funcstr pids_ uids us c p0_ yids_ = Ok pred ->
  (length pids_ <= length p)%nat ->
  _f pred (p ++ extra) = _f pred p /\ _Df pred (p ++ extra) = _Df pred p.
Proof.
  intros H Hlen.
  destruct (str2predict_Ok_inv _ _ _ _ _ _ _ _ _ H)
    as (ycode & jaccode & -> & -> & _).
  by rewrite zip_app_surplus.
Qed.

Lemma dict_lookup_agree {V} (keys : list string) (p q : list V)
    (m1 m2 : gmap string V) (x : string) :
  length p = length q ->
  m1 !! x = m2 !! x ->
  (forall i, keys !! i = Some x -> p !! i = q !! i) ->
  foldl (fun m kv => <[kv.1 := kv.2]> m) m1 (zip keys p) !! x
    = foldl (fun m kv => <[kv.1 := kv.2]> m) m2 (zip keys q) !! x.
Proof.
  revert p q m1 m2.
  induction keys as [|k keys IH]; intros [|v p] [|w q] m1 m2 Hlen Hm Hpos;
    simpl in *; try done.
  apply IH; [congruence| |intros i Hi; apply (Hpos (S i) Hi)].
  destruct (decide (k = x)) as [->|Hne].
  - rewrite !lookup_insert_eq. apply (Hpos 0%nat). done.
  - by rewrite !lookup_insert_ne.
Qed.

Lemma eval_expr_agree (g1 g2 : gmap string R) (locals : gmap string pyval)
    (e : expr) :
  (forall x, locals !! x = None -> g1 !! x = g2 !! x) ->
  eval_expr g1 locals e = eval_expr g2 locals e.
Proof.
  intros Hg.
  assert (Hname : forall x, lookup_name g1 locals x = lookup_name g2 locals x).
  { intros x. unfold lookup_name.
    destruct (locals !! x) eqn:Hx; [done|]. by rewrite (Hg x Hx). }
  induction e as [n|x|e IH|op a IHa b IHb|fn arg IH]; simpl.
  - done.
  - by rewrite Hname.
  - by rewrite IH.
  - by rewrite IHa, IHb.
  - by rewrite Hname, IH.
Qed.

Lemma mapM_result_ext {A B} (g h : A -> result B) (l : list A) :
  (forall x, x ∈ l -> g x = h x) -> mapM g l = mapM h l.
Proof.
  induction l as [|x l IH]; intros H; simpl; [done|].
  rewrite (H x) by left. by rewrite IH by (intros y Hy; apply H; by right).
Qed.

(** X23: the names of [mathsubs] shadow the parameters: a parameter whose
    identifier is one of them (['pi'], ['exp'], ...) never reaches the
    expressions, so two parameter vectors that differ only at such
    positions give the same outputs and the same Jacobian. *)
Theorem str2predict_mathsubs_shadow_parameters globals funcstr pids_ uids us
    c p0_ yids_ (pred : Predict) (p q : list R) :
  str2predict globals funcstr pids_ uids us c p0_ yids_ = Ok pred ->
  length p = length q ->
  (forall i x, pids_ !! i = Some x -> mathsubs !! x = None ->
               p !! i = q !! i) ->
  _f pred p = _f pred q /\ _Df pred p = _Df pred q.
Proof.
  intros H Hlen Hpos.
  destruct (str2predict_Ok_inv _ _ _ _ _ _ _ _ _ H)
    as (ycode & jaccode & -> & -> & _).
  assert (Heval : forall e,
    eval_expr (dict (zip pids_ p)) mathsubs e
      = eval_expr (dict (zip pids_ q)) mathsubs e).
  { intros e. apply eval_expr_agree. intros x Hx. unfold dict.
    apply dict_lookup_agree; [done|done|]. intros i Hi. by apply (Hpos i x). }
  split.
  - apply mapM_result_ext. intros e _. apply Heval.
  - apply mapM_result_ext. intros row _.
    apply mapM_result_ext. intros e _. apply Heval.
Qed.

(** ** Predictions from lists of expression strings *)

(** X24: [list2predict] never returns a prediction: [funstrs] is read
    before anything assigns it.  Without constants the error is the unbound
    local variable, in every namespace and for every input. *)
Theorem list2predict_never_returns flatten globals funcstrs pids_ uids us
    yids_ c p0_ :
  raises (list2predict flatten globals funcstrs pids_ uids us yids_ c p0_) /\
  (c = None ->
   list2predict flatten globals funcstrs pids_ uids us yids_ c p0_
     = Err (UnboundLocalError "funstrs")).
Proof.
  unfold list2predict, raises. split.
  - destruct c as [c|]; simpl.
    + destruct (mapM _ funcstrs) as [fs|e]; simpl; [|by eexists].
      destruct uids; simpl; by eexists.
    + destruct uids; simpl; by eexists.
  - intros ->. simpl. by destruct uids.
Qed.

Lemma mapM_result_length {A B} (g : A -> result B) (l : list A)
    (ys : list B) :
  mapM g l = Ok ys -> length ys = length l.
Proof.
  revert ys. induction l as [|x l IH]; intros ys H; simpl in H.
  - by injection H as <-.
  - inv_bind H. injection H as <-. simpl. f_equal. by apply IH.
Qed.

(** X25: [list2predict2] raises whenever there is an expression and a
    parameter, in every namespace that does not bind [s] (the module's own
    does not): the first Jacobian entry evaluates the undefined name. *)
Theorem list2predict2_raises flatten_rows get_product diff_object globals
    funcstrs pids_ uids us yids_ c p0_ :
  globals !! "s" = None ->
  funcstrs <> [] -> pids_ <> [] ->
  raises (list2predict2 flatten_rows get_product diff_object globals
            funcstrs pids_ uids us yids_ c p0_).
Proof.
  intros Hs Hf Hp. unfold list2predict2, raises.
  destruct (match c with Some _ => _ | None => _ end) as [fs|e] eqn:Hc;
    [|by eexists].
  assert (Hfs : fs <> []).
  { destruct c as [c|].
    - apply mapM_result_length in Hc. destruct fs, funcstrs; done.
    - by injection Hc as <-. }
  rewrite bind_Ok. destruct (compile_list _) as [ycode|e]; [|by eexists].
  rewrite bind_Ok.
  destruct fs as [|funcstr fs]; [done|]. destruct pids_ as [|pid pids_]; [done|].
  cbn [mapM]. unfold global_name. rewrite Hs.
  destruct (global_util globals) as [util|e]; simpl; by eexists.
Qed.

Lemma predict_globals_s : predict_globals !! "s" = None.
Proof. reflexivity. Qed.

(** ** The further statements at sample predictions *)

Lemma Predict_init_copy_witness :
  Predict_init (fun _ => Ok []) None None None None None None None "logp"
    None (Some pred_id)
  = Ok {| _f := _f pred_id; _Df := _Df pred_id; pids := pids pred_id;
          yids := yids pred_id;
          pdim := default (length (pids pred_id)) None;
          ydim := default (length (yids pred_id)) None;
          p0 := p0 pred_id; _p0 := _p0 pred_id; rank := rank pred_id;
          ptype := ptype pred_id; prior := None |}.
Proof. apply (Predict_init_copy _ _ _ _ _ _ _ _ _ _ pred_id). by repeat split. Defined.

Lemma Predict_init_backfills_jacobian_witness :
  exists self,
    Predict_init (linear_map [[1; 2]; [3; 4]]) None (Some ["a"; "b"])
      (Some ["ya"; "yb"]) None None None None "" None None = Ok self /\
    _Df self [5; 7] = Ok [[1; 2]; [3; 4]] /\
    Df self (Some [5; 7])
      = Ok {| mvalues := [[1; 2]; [3; 4]]; mindex := ["ya"; "yb"];
              mcolumns := ["a"; "b"] |}.
Proof.
  eexists. split; [reflexivity|].
  apply (Predict_init_backfills_jacobian [[1; 2]; [3; 4]] ["a"; "b"]
           ["ya"; "yb"] None None "" None _ [5; 7]);
    [reflexivity | discriminate | reflexivity | repeat constructor
    | reflexivity].
Defined.

Lemma add_concatenates_jacobians_witness :
  exists AB,
    __add__ pred_id pred_sum = Ok AB /\
    (forall p JA JB n,
        _Df pred_id p = Ok JA -> _Df pred_sum p = Ok JB ->
        JA <> [] -> JB <> [] ->
        Forall (fun row => length row = n) JA ->
        Forall (fun row => length row = n) JB ->
        _Df AB p = Ok (JA ++ JB)) /\
    (forall p ma mb,
        Df pred_id p = Ok ma -> Df pred_sum p = Ok mb ->
        mvalues ma <> [] -> mvalues mb <> [] ->
        Df AB p = Ok {| mvalues := mvalues ma ++ mvalues mb;
                        mindex := mindex ma ++ mindex mb;
                        mcolumns := mcolumns ma |}) /\
    (forall p ra JA rb JB,
        _Df pred_id p = Ok (ra :: JA) -> _Df pred_sum p = Ok (rb :: JB) ->
        length ra <> length rb ->
        raises (_Df AB p)).
Proof.
  apply (add_concatenates_jacobians pred_id pred_sum);
    [by repeat split | by repeat split | reflexivity | reflexivity].
Defined.

Lemma add_metadata_witness :
  exists AB,
    __add__ pred_id pred_sum = Ok AB /\
    pids AB = ["a"; "b"] /\ yids AB = ["ya"; "yb"; "s"] /\
    pdim AB = 2%nat /\ ydim AB = 3%nat /\ _p0 AB = [1; 2] /\
    ptype AB = "" /\ rank AB = None /\ prior AB = None /\ Predict_wf AB.
Proof.
  destruct (add_Ok pred_id pred_sum pred_id_wf pred_sum_wf eq_refl eq_refl)
    as (AB & H & _).
  exists AB. split; [exact H|].
  exact (add_metadata pred_id pred_sum AB H).
Defined.

Lemma add_assoc_witness :
  exists AB BC L Rt,
    __add__ pred_id pred_sum = Ok AB /\ __add__ pred_sum pred_id = Ok BC /\
    __add__ AB pred_id = Ok L /\ __add__ pred_id BC = Ok Rt /\
    pids L = pids Rt /\ yids L = yids Rt /\ p0 L = p0 Rt /\
    (forall p, _f L p = _f Rt p) /\
    (forall p, __call__ L p = __call__ Rt p).
Proof.
  apply (add_assoc pred_id pred_sum pred_id);
    try (by repeat split); reflexivity.
Defined.

Lemma get_in_logp_metadata_witness :
  exists logpred,
    get_in_logp pred_id = Ok logpred /\
    pids logpred = ["log_a"; "log_b"] /\
    yids logpred = ["ya"; "yb"] /\
    pdim logpred = 2%nat /\ ydim logpred = 2%nat /\
    p0 logpred = {| values := np.log [1; 2]; index := pids logpred |} /\
    _p0 logpred = np.log [1; 2] /\
    ptype logpred = "logp" /\ rank logpred = None /\ prior logpred = None.
Proof.
  destruct (get_in_logp pred_id) as [logpred|e] eqn:H; [|discriminate H].
  exists logpred. split; [reflexivity|].
  exact (get_in_logp_metadata pred_id logpred H).
Defined.


Lemma get_in_logp_add_commute_witness :
  exists AB L1 LA LB L2,
    __add__ pred_id pred_sum = Ok AB /\ get_in_logp AB = Ok L1 /\
    get_in_logp pred_id = Ok LA /\ get_in_logp pred_sum = Ok LB /\
    __add__ LA LB = Ok L2 /\
    pids L1 = pids L2 /\ yids L1 = yids L2 /\ p0 L1 = p0 L2 /\
    ptype L1 = ptype L2 /\
    (forall logp, _f L1 logp = _f L2 logp) /\
    (forall logp, __call__ L1 logp = __call__ L2 logp) /\
    (forall logp JA JB,
        _Df pred_id (np.exp logp) = Ok JA ->
        _Df pred_sum (np.exp logp) = Ok JB ->
        JA <> [] -> JB <> [] ->
        Forall (fun row => length row = length logp) JA ->
        Forall (fun row => length row = length logp) JB ->
        _Df L1 logp = _Df L2 logp).
Proof.
  apply (get_in_logp_add_commute pred_id pred_sum);
    try (by repeat split); try reflexivity.
  repeat constructor; lra.
Defined.

Lemma get_sigma_returns_iff_f_returns_witness :
  (forall e, f pred_id None = Err e ->
             get_sigma pred_id None "cv" 1 (1/10) = Err e) /\
  (forall y, f pred_id None = Ok y ->
     exists sigma,
       get_sigma pred_id None "cv" 1 (1/10) = Ok sigma /\
       index sigma = yids pred_id /\
       length (values sigma) = length (values y)).
Proof.
  apply (get_sigma_returns_iff_f_returns pred_id None "cv" 1 (1/10)).
  rewrite !elem_of_cons. auto.
Defined.

Lemma get_sigma_mixed_floor_witness :
  Forall (fun s => 1 <= s) [Rmax (1 * (1/10)) 1; Rmax (2 * (1/10)) 1] /\
  Forall2 (fun v s => v * (1/10) <= s) [1; 2]
    [Rmax (1 * (1/10)) 1; Rmax (2 * (1/10)) 1].
Proof.
  apply (get_sigma_mixed_floor pred_id None 1 (1/10)
           {| values := [1; 2]; index := ["ya"; "yb"] |}
           {| values := [Rmax (1 * (1/10)) 1; Rmax (2 * (1/10)) 1];
              index := ["ya"; "yb"] |}); reflexivity.
Defined.

Lemma get_sigma_constant_ignores_outputs_witness :
  get_sigma pred_id None "constant" 1 (1/10)
    = get_sigma pred_id (Some [3; 4]) "constant" 1 (1/2) /\
  get_sigma pred_id None "constant" 1 (1/10)
    = Ok {| values := replicate (length (yids pred_id)) 1;
            index := yids pred_id |}.
Proof.
  apply (get_sigma_constant_ignores_outputs pred_id None (Some [3; 4]) 1
           (1/10) (1/2)
           {| values := [1; 2]; index := ["ya"; "yb"] |}
           {| values := [3; 4]; index := ["ya"; "yb"] |}); reflexivity.
Defined.

Lemma get_sigma_add_witness :
  exists AB,
    __add__ pred_id pred_sum = Ok AB /\
    get_sigma AB None "cv" 1 (1/10)
      = Ok (Series_append
              {| values := [1 * (1/10); 2 * (1/10)]; index := ["ya"; "yb"] |}
              {| values := [(1 + (2 + 0)) * (1/10)]; index := ["s"] |}).
Proof.
  destruct (add_Ok pred_id pred_sum pred_id_wf pred_sum_wf eq_refl eq_refl)
    as (AB & H & _).
  exists AB. split; [exact H|].
  apply (get_sigma_add pred_id pred_sum AB None "cv" 1 (1/10));
    [by repeat split | by repeat split | exact H | reflexivity | reflexivity].
Defined.

Lemma get_Df_fd_affine_exact_witness :
  get_Df_fd (affine_map [[1; 2]; [3; 4]] [5; 6]) None [1; 1]
    = Ok [[1; 2]; [3; 4]].
Proof.
  apply (get_Df_fd_affine_exact [[1; 2]; [3; 4]] [5; 6] None [1; 1]).
  - simpl. unfold RDELTAP. lra.
  - discriminate.
  - repeat constructor.
  - reflexivity.
Defined.

Lemma get_Df_fd_affine_negative_step_witness :
  get_Df_fd (affine_map [[1; 2]; [3; 4]] [5; 6]) (Some (-1)) [1; 2]
    = Ok [[1; 2]; [3; 4]].
Proof.
  apply (get_Df_fd_affine_negative_step [[1; 2]; [3; 4]] [5; 6] (-1) [1; 2]).
  - lra.
  - repeat constructor; lra.
  - discriminate.
  - repeat constructor.
  - reflexivity.
Defined.

Lemma get_Df_fd_shape_witness :
  exists jac,
    get_Df_fd (fun q => Ok [foldr Rmult 1 q; 0; 1]) (Some 0) [1; 2] = Ok jac /\
    length jac = 3%nat /\
    Forall (fun row => length row = length [1; 2]) jac.
Proof.
  apply (get_Df_fd_shape (fun q => Ok [foldr Rmult 1 q; 0; 1]) (Some 0)
           [1; 2] 3).
  - intros q _. eexists. split; reflexivity.
  - discriminate.
Defined.

Lemma get_Df_fd_error_witness :
  get_Df_fd (fun _ => Err ZeroDivisionError) None [] = Ok [] /\
  (forall p, p <> [] ->
             get_Df_fd (fun _ => Err ZeroDivisionError) None p
               = Err ZeroDivisionError).
Proof.
  apply (get_Df_fd_error (fun _ => Err ZeroDivisionError) None
           ZeroDivisionError).
  reflexivity.
Defined.

Lemma str2predict_returns_only_empty_witness :
  exists pred,
    str2predict predict_globals "V*x/(K+x)" ["V"; "K"] ["x"] [] None None None
      = Ok pred /\
    (forall p, _f pred p = Ok []) /\ (forall p, _Df pred p = Ok []).
Proof.
  eexists. split; [reflexivity|].
  eapply (str2predict_returns_only_empty "V*x/(K+x)" ["V"; "K"] ["x"] []
            None None None).
  reflexivity.
Defined.

Lemma str2predict_ignores_surplus_witness :
  exists pred,
    str2predict example_globals "V*x/(K+x)" ["V"; "K"] ["x"]
      [[1]; [2]; [3]]%Z None None None = Ok pred /\
    _f pred ([1; 1] ++ [7]) = _f pred [1; 1] /\
    _Df pred ([1; 1] ++ [7]) = _Df pred [1; 1].
Proof.
  destruct str2predict_example_repaired as (pred & H & _).
  exists pred. split; [exact H|].
  apply (str2predict_ignores_surplus _ _ _ _ _ _ _ _ pred [1; 1] [7] H).
  simpl. lia.
Defined.

Lemma shadow_example_codes :
  exists ycode jaccode,
    (ystrs ← mapM (fun u => util ← global_util example_globals;
                            sub_expr util "V*pi*x" (dict (zip ["x"] u)))
                  [[2]]%Z;
     compile_list (remove_quotes (str_list (repr_string <$> ystrs))))
      = Ok ycode /\
    (jaclist ← mapM (fun u =>
                    util ← global_util example_globals;
                    funcstr_u ← sub_expr util "V*pi*x" (dict (zip ["x"] u));
                    mapM (fun pid =>
                            util ← global_util example_globals;
                            util' ← global_util example_globals;
                            d ← diff_expr util' funcstr_u pid;
                            simplify_expr util d) ["V"; "pi"]) [[2]]%Z;
     compile_list2
       (remove_quotes
          (str_list ((fun row => str_list (repr_string <$> row)) <$> jaclist))))
      = Ok jaccode.
Proof. eexists _, _. split; vm_compute; reflexivity. Qed.

Lemma shadow_example_built :
  exists pred,
    str2predict example_globals "V*pi*x" ["V"; "pi"] ["x"] [[2]]%Z None None
      None = Ok pred.
Proof.
  destruct shadow_example_codes as (ycode & jaccode & Hy & Hjac).
  apply bind_Ok_inv in Hy as (ystrs & Hystrs & Hycode).
  apply bind_Ok_inv in Hjac as (jaclist & Hjaclist & Hjaccode).
  eexists. unfold str2predict.
  rewrite bind_Ok, Hystrs, bind_Ok, Hycode, bind_Ok, Hjaclist, bind_Ok.
  rewrite Hjaccode, bind_Ok. reflexivity.
Qed.

Lemma str2predict_mathsubs_shadow_parameters_witness :
  exists pred,
    str2predict example_globals "V*pi*x" ["V"; "pi"] ["x"] [[2]]%Z None None
      None = Ok pred /\
    _f pred [3; 5] = _f pred [3; 7] /\ _Df pred [3; 5] = _Df pred [3; 7].
Proof.
  destruct shadow_example_built as (pred & H).
  exists pred. split; [exact H|].
  apply (str2predict_mathsubs_shadow_parameters example_globals "V*pi*x"
           ["V"; "pi"] ["x"] [[2]]%Z None None None pred [3; 5] [3; 7] H);
    [reflexivity|].
  intros [|[|i]] x Hx Hm; [done| |done].
  injection Hx as <-. vm_compute in Hm. discriminate.
Defined.

Lemma list2predict2_raises_witness :
  raises (list2predict2 sample_flatten_rows sample_get_product
            sample_diff_object predict_globals ["exp(-p1)"] ["p1"] None None
            None None None).
Proof.
  apply (list2predict2_raises sample_flatten_rows sample_get_product
           sample_diff_object predict_globals ["exp(-p1)"] ["p1"]);
    [reflexivity | discriminate | discriminate].
Defined.

Lemma add_warns_iff_overlap_witness :
  (add_warnings pred_id pred_id = ["The two preds have overlapping yids."]
   <-> pids pred_id = pids pred_id /\ _p0 pred_id = _p0 pred_id /\
       exists y, y ∈ yids pred_id /\ y ∈ yids pred_id) /\
  (add_warnings pred_id pred_id = ["The two preds have overlapping yids."] \/
   add_warnings pred_id pred_id = []) /\
  (add_warnings pred_id pred_id <> [] ->
   exists AB, __add__ pred_id pred_id = Ok AB).
Proof.
  apply (add_warns_iff_overlap pred_id pred_id); by repeat split.
Defined.
